(** * The portfolio weight optimizer of [lib/server-database-operations.ts]

    A shallow embedding of the class [QuantumPortfolioOptimizer] and the
    properties its specification states about it.

    Numbers are JavaScript numbers, that is IEEE 754 binary64 values: they are
    modelled by Rocq's primitive floats, whose [+], [-], [*], [/] and [sqrt]
    are the correctly rounded binary64 operations JavaScript uses.  [Math.exp]
    and [Math.pow] are implementation-approximated in ECMAScript; the model
    takes them as parameters ([Math_exp], [Math_pow]).

    Exceptions ([throw], a rejected promise, a [TypeError] raised by reading a
    property of [undefined]) are modelled by a small error monad.  Array reads
    and writes follow JavaScript out of range as well.  The iteration bound
    [maxIterations] is a number like any other, and the loop of the optimizer
    compares its counter with it as numbers; since the loop need not end (the
    bound may be [Infinity]), it is run with fuel.

    The file first embeds the class, then states the quantities of the
    specification in closed form, and then proves the loops of the class equal
    to them and the properties of the optimizer that follow. *)

From Stdlib Require Import String.
From Stdlib Require Import Floats ZArith List Bool Lia PeanoNat.
From Stdlib Require Uint63 Ascii DecimalString.
Import ListNotations.
Set Warnings "-inexact-float".

Local Open Scope float_scope.

(** ** JavaScript numbers *)

Module JS.

(** [ToBoolean] on a number: [NaN], [+0] and [-0] are falsy. *)
Definition truthy (x : float) : bool := negb (is_nan x || is_zero x).

(** [x || d] where [x] is a possibly absent number. *)
Definition or_default (x : option float) (d : float) : float :=
  match x with
  | Some v => if truthy v then v else d
  | None => d
  end.

Definition is_neg_zero (x : float) : bool := Leibniz.eqb x neg_zero.

(** [Math.max(a, b)]: [NaN] if an argument is [NaN]; [+0] is larger than
    [-0]. *)
Definition Math_max (a b : float) : float :=
  if is_nan a || is_nan b then nan
  else if a <? b then b
  else if b <? a then a
  else if is_neg_zero a then b else a.

(** [Math.min(a, b)]: [NaN] if an argument is [NaN]; [-0] is smaller than
    [+0]. *)
Definition Math_min (a b : float) : float :=
  if is_nan a || is_nan b then nan
  else if a <? b then a
  else if b <? a then b
  else if is_neg_zero a then a else b.

Definition Math_abs (x : float) : float := abs x.
Definition Math_sqrt (x : float) : float := sqrt x.

(** [array.length] as a number.  A JavaScript array has fewer than [2^32]
    elements, so the conversion is exact. *)
Definition of_nat (n : nat) : float := of_uint63 (Uint63.of_Z (Z.of_nat n)).

End JS.
Import JS.

(** ** Exceptions *)

Inductive exn : Type :=
| Error (message : string)   (* [throw new Error(message)] *)
| TypeError.                 (* a property read or written on [undefined] *)

Definition result (A : Type) : Type := (exn + A)%type.

Definition ret {A : Type} (a : A) : result A := inr a.

Definition bind {A B : Type} (m : result A) (f : A -> result B) : result B :=
  match m with
  | inl e => inl e
  | inr a => f a
  end.

Notation "x <- m ;; k" := (bind m (fun x => k))
  (at level 61, m at next level, right associativity).
Notation "' pat <- m ;; k" := (bind m (fun x => match x with pat => k end))
  (at level 61, pat pattern, m at next level, right associativity).

(** [for (let i = start; i < start + count; i++) s = body(i, s)], a thrown
    exception leaving the loop. *)
Fixpoint for_from {S : Type} (start count : nat)
    (body : nat -> S -> result S) (s : S) : result S :=
  match count with
  | O => ret s
  | Datatypes.S c =>
    s' <- body start s ;; for_from (Datatypes.S start) c body s'
  end.

Definition for_loop {S : Type} (n : nat) (body : nat -> S -> result S) (s : S)
  : result S :=
  for_from 0 n body s.

(** ** Arrays *)

(** [a[i]] on an array of numbers, used as an arithmetic operand: a read past
    the end yields [undefined], which arithmetic converts to [NaN]. *)
Definition arr_get (a : list float) (i : nat) : float := nth i a nan.

(** [a[i]] on an array of objects whose property is read next: on
    [undefined] the property read throws a [TypeError]. *)
Definition arr_ref {A : Type} (a : list A) (i : nat) : result A :=
  match nth_error a i with
  | Some x => ret x
  | None => inl TypeError
  end.

(** Replacement of element [i]; the list is unchanged when [i] is out of
    range (callers check the index first). *)
Fixpoint update {A : Type} (i : nat) (x : A) (l : list A) : list A :=
  match l, i with
  | [], _ => []
  | _ :: t, O => x :: t
  | h :: t, Datatypes.S i' => h :: update i' x t
  end.

(** [a[i] = x] on an array of numbers.  A write past the end extends the array
    and leaves holes, which read as [undefined], that is [NaN] in
    arithmetic. *)
Definition arr_set (a : list float) (i : nat) (x : float) : list float :=
  if (i <? length a)%nat then update i x a
  else a ++ repeat nan (i - length a) ++ [x].

Definition matrix : Type := list (list float).

(** [m[i][j]] as an arithmetic operand: [m[i]] being [undefined] throws. *)
Definition mat_get (m : matrix) (i j : nat) : result float :=
  row <- arr_ref m i ;; ret (arr_get row j).

(** [m[i][j] = x]: [m[i]] being [undefined] throws. *)
Definition mat_set (m : matrix) (i j : nat) (x : float) : result matrix :=
  row <- arr_ref m i ;; ret (update i (arr_set row j x) m).

(** [a.reduce((acc, x, i) => f(acc, x, i), init)]. *)
Fixpoint reduce_from {A B : Type} (f : B -> A -> nat -> B) (i : nat)
    (a : list A) (acc : B) : B :=
  match a with
  | [] => acc
  | x :: t => reduce_from f (Datatypes.S i) t (f acc x i)
  end.

Definition reduce {A B : Type} (f : B -> A -> nat -> B) (init : B) (a : list A)
  : B :=
  reduce_from f 0 a init.

(** [a.map((x, i) => f(x, i))]. *)
Fixpoint mapi_from {A B : Type} (f : A -> nat -> B) (i : nat) (a : list A)
  : list B :=
  match a with
  | [] => []
  | x :: t => f x i :: mapi_from f (Datatypes.S i) t
  end.

Definition mapi {A B : Type} (f : A -> nat -> B) (a : list A) : list B :=
  mapi_from f 0 a.

(** Writing [g k] at every index [k] of a range, in increasing order: what a
    loop [for (k = start; k < start + count; k++) a[k] = g(k)] leaves. *)
Definition fill {A : Type} (g : nat -> A) (start count : nat) (l : list A)
  : list A :=
  fold_left (fun l' k => update k (g k) l') (seq start count) l.

(** ** Data model *)

Record Asset : Type := {
  symbol : string;
  name : string;
  expectedReturn : float;
  volatility : float;
  price : float
}.

Record OptimizationResult : Type := {
  optimalWeights : list float;
  or_expectedReturn : float;
  or_volatility : float;
  or_sharpeRatio : float;
  convergenceData : list float;
  iterations : nat
}.

Record PortfolioMetrics : Type := {
  pm_expectedReturn : float;
  pm_volatility : float;
  pm_sharpeRatio : float
}.

(** [{ minWeight?: number; maxWeight?: number }] *)
Record Constraints : Type := {
  minWeight : option float;
  maxWeight : option float
}.

(** The default argument [{}]. *)
Definition no_constraints : Constraints :=
  {| minWeight := None; maxWeight := None |}.

(** The private fields of a [QuantumPortfolioOptimizer], three numbers. *)
Record QuantumPortfolioOptimizer : Type := {
  riskFreeRate : float;
  maxIterations : float;
  tolerance : float
}.

(** [constructor(riskFreeRate?: number, maxIterations?: number)]: an argument
    replaces the initial value of its field when it is truthy, whatever
    number it is. *)
Definition constructor (rate maxIter : option float)
  : QuantumPortfolioOptimizer :=
  {| riskFreeRate := match rate with
                     | Some r => if truthy r then r else 0.02
                     | None => 0.02
                     end;
     maxIterations := match maxIter with
                      | Some m => if truthy m then m else 100
                      | None => 100
                      end;
     tolerance := 1e-6 |}.

(** The message of the only [throw] of the class; the specification calls
    this failure [InvalidInput]. *)
Definition InvalidInput : exn :=
  Error "Portfolio must contain at least 2 assets"%string.

(** ** The class [QuantumPortfolioOptimizer] *)

Section Optimizer.

(** [Math.exp] and [Math.pow] of the host. *)
Variable Math_exp : float -> float.
Variable Math_pow : float -> float -> float.

(** [calculateCovarianceMatrix(assets)].  The rows built by
    [Array(n).fill(null).map(() => Array(n).fill(0))] are distinct arrays. *)
Definition calculateCovarianceMatrix (assets : list Asset) : result matrix :=
  let n := length assets in
  let covMatrix := repeat (repeat 0 n) n in
  for_loop n (fun i covMatrix =>
    for_loop n (fun j covMatrix =>
      if (i =? j)%nat then
        ai <- arr_ref assets i ;;
        mat_set covMatrix i j (Math_pow (volatility ai) 2)
      else
        let correlation := 0.3 in
        ai <- arr_ref assets i ;;
        aj <- arr_ref assets j ;;
        mat_set covMatrix i j (correlation * volatility ai * volatility aj))
      covMatrix)
    covMatrix.

(** [weights.reduce((sum, w, i) => sum + w * expectedReturns[i], 0)]: the
    source repeats this expression in four methods. *)
Definition portfolioReturn (weights expectedReturns : list float) : float :=
  reduce (fun sum w i => sum + w * arr_get expectedReturns i) 0 weights.

(** The double loop accumulating [portfolioVariance], repeated in the same
    four methods. *)
Definition portfolioVariance (weights : list float) (covMatrix : matrix)
  : result float :=
  let n := length weights in
  for_loop n (fun i portfolioVariance =>
    for_loop n (fun j portfolioVariance =>
      c <- mat_get covMatrix i j ;;
      ret (portfolioVariance + arr_get weights i * arr_get weights j * c))
      portfolioVariance)
    0.

Variable this : QuantumPortfolioOptimizer.

(** [objectiveFunction(weights, expectedReturns, covMatrix)] *)
Definition objectiveFunction (weights expectedReturns : list float)
    (covMatrix : matrix) : result float :=
  let portfolioReturn := portfolioReturn weights expectedReturns in
  portfolioVariance <- portfolioVariance weights covMatrix ;;
  let portfolioVolatility := Math_sqrt portfolioVariance in
  let sharpeRatio :=
    (portfolioReturn - riskFreeRate this) / portfolioVolatility in
  ret (- sharpeRatio).

(** [calculateGradients(weights, expectedReturns, covMatrix)] *)
Definition calculateGradients (weights expectedReturns : list float)
    (covMatrix : matrix) : result (list float) :=
  let n := length weights in
  let gradients := repeat 0 n in
  let portfolioReturn := portfolioReturn weights expectedReturns in
  portfolioVariance <- portfolioVariance weights covMatrix ;;
  let portfolioVolatility := Math_sqrt portfolioVariance in
  for_loop n (fun i gradients =>
    let returnGradient := arr_get expectedReturns i in
    varianceGradient <-
      for_loop n (fun j varianceGradient =>
        c <- mat_get covMatrix i j ;;
        ret (varianceGradient + 2 * arr_get weights j * c)) 0 ;;
    let volatilityGradient := varianceGradient / (2 * portfolioVolatility) in
    let numerator :=
      returnGradient * portfolioVolatility
      - (portfolioReturn - riskFreeRate this) * volatilityGradient in
    let denominator := Math_pow portfolioVolatility 2 in
    ret (arr_set gradients i (- numerator / denominator)))
    gradients.

(** The body of the [for] loop of [quantumOptimization], run with the loop
    counter [iteration] on the variables [weights] and [convergenceData]: the
    outcome of the convergence test, which decides on the [break], and the
    two variables as the pass leaves them. *)
Definition loopBody (expectedReturns : list float) (covMatrix : matrix)
    (minWeight maxWeight : float) (iteration : float)
    (weights convergenceData : list float)
  : result (bool * (list float * list float)) :=
  currentObjective <- objectiveFunction weights expectedReturns covMatrix ;;
  let convergenceData := convergenceData ++ [- currentObjective] in
  let learningRate := 0.01 * Math_exp (- iteration / 50) in
  gradients <- calculateGradients weights expectedReturns covMatrix ;;
  let newWeights :=
    mapi (fun w i =>
            let gradient := arr_get gradients i in
            let update := w - learningRate * gradient in
            Math_max minWeight (Math_min maxWeight update))
         weights in
  let sum := reduce (fun s w _ => s + w) 0 newWeights in
  let weights := map (fun w => w / sum) newWeights in
  newObjective <- objectiveFunction weights expectedReturns covMatrix ;;
  ret (Math_abs (newObjective - currentObjective) <? tolerance this,
       (weights, convergenceData)).

(** The loop [for (let iteration = 0; iteration < this.maxIterations;
    iteration++)] from the counter [iteration] on.  The guard compares two
    numbers, and the counter is a number that [iteration++] increments.
    Nothing bounds the passes when the guard never fails and the test never
    succeeds, so the loop is run with [fuel], the number of times the guard
    may be evaluated: the result is [None] when this is used up, and
    otherwise the pair of [weights] and [convergenceData] when the loop is
    left, by the guard or by [break], or the exception thrown. *)
Fixpoint optimizationLoop (expectedReturns : list float) (covMatrix : matrix)
    (minWeight maxWeight : float) (fuel : nat) (iteration : float)
    (weights convergenceData : list float)
  : option (result (list float * list float)) :=
  match fuel with
  | O => None
  | S fuel' =>
    if iteration <? maxIterations this then
      match loopBody expectedReturns covMatrix minWeight maxWeight iteration
              weights convergenceData with
      | inl e => Some (inl e)
      | inr (true, state) => Some (ret state)
      | inr (false, (weights, convergenceData)) =>
        optimizationLoop expectedReturns covMatrix minWeight maxWeight
          fuel' (iteration + 1) weights convergenceData
      end
    else Some (ret (weights, convergenceData))
  end.

(** [quantumOptimization(assets, constraints)], its loop run with [fuel]. *)
Definition quantumOptimization (fuel : nat) (assets : list Asset)
    (constraints : Constraints) : option (result OptimizationResult) :=
  let n := length assets in
  let expectedReturns := map expectedReturn assets in
  match calculateCovarianceMatrix assets with
  | inl e => Some (inl e)
  | inr covMatrix =>
    let weights := repeat (1 / of_nat n) n in
    let convergenceData := [] in
    let minWeight := or_default (minWeight constraints) 0 in
    let maxWeight := or_default (maxWeight constraints) 1 in
    match optimizationLoop expectedReturns covMatrix minWeight maxWeight
            fuel 0 weights convergenceData with
    | None => None
    | Some (inl e) => Some (inl e)
    | Some (inr (weights, convergenceData)) =>
      Some
        (let portfolioReturn := portfolioReturn weights expectedReturns in
         portfolioVariance <- portfolioVariance weights covMatrix ;;
         let portfolioVolatility := Math_sqrt portfolioVariance in
         let sharpeRatio :=
           (portfolioReturn - riskFreeRate this) / portfolioVolatility in
         ret {| optimalWeights := weights;
                or_expectedReturn := portfolioReturn;
                or_volatility := portfolioVolatility;
                or_sharpeRatio := sharpeRatio;
                convergenceData := convergenceData;
                iterations := length convergenceData |})
    end
  end.

(** [optimizePortfolio(assets, constraints)]; a rejected promise is an
    error result, and [None] a call whose loop [fuel] does not end. *)
Definition optimizePortfolio (fuel : nat) (assets : list Asset)
    (constraints : Constraints) : option (result OptimizationResult) :=
  if (length assets <? 2)%nat then Some (inl InvalidInput)
  else quantumOptimization fuel assets constraints.

(** [calculatePortfolioMetrics(assets, weights)] *)
Definition calculatePortfolioMetrics (assets : list Asset)
    (weights : list float) : result PortfolioMetrics :=
  let expectedReturns := map expectedReturn assets in
  covMatrix <- calculateCovarianceMatrix assets ;;
  let portfolioReturn := portfolioReturn weights expectedReturns in
  portfolioVariance <- portfolioVariance weights covMatrix ;;
  let portfolioVolatility := Math_sqrt portfolioVariance in
  let sharpeRatio :=
    (portfolioReturn - riskFreeRate this) / portfolioVolatility in
  ret {| pm_expectedReturn := portfolioReturn;
         pm_volatility := portfolioVolatility;
         pm_sharpeRatio := sharpeRatio |}.

End Optimizer.

(** ** A reference host

    One instance of the two host functions, to run the model on concrete
    inputs.  ECMAScript fixes [Math.exp] at [NaN], [+0], [-0] and the
    infinities and [Math.pow(x, 2)] at zero; elsewhere a host returns an
    approximation of its choice.  [exp_ref] scales the argument, sums the
    Taylor series and squares back; [pow_ref] covers the exponents [0], [1]
    and [2], of which the class only uses [2], by the rounded product. *)

Fixpoint exp_series (terms : nat) (t term acc k : float) : float :=
  match terms with
  | O => acc
  | S terms' =>
    let term' := term * t / k in
    exp_series terms' t term' (acc + term') (k + 1)
  end.

Fixpoint square_times (n : nat) (x : float) : float :=
  match n with
  | O => x
  | S n' => square_times n' (x * x)
  end.

Definition exp_ref (x : float) : float :=
  if is_nan x then nan
  else if is_zero x then 1
  else if 710 <? x then infinity
  else if x <? -746 then 0
  else square_times 10 (exp_series 14 (x / 1024) 1 1 1).

Definition pow_ref (base exponent : float) : float :=
  if exponent =? 2 then base * base
  else if exponent =? 1 then base
  else if is_zero exponent then 1
  else nan.

(** The sample data of the source file ([sampleAssets]). *)
Definition AAPL : Asset :=
  {| symbol := "AAPL"; name := "Apple Inc.";
     expectedReturn := 0.12; volatility := 0.25; price := 175.5 |}.
Definition GOOGL : Asset :=
  {| symbol := "GOOGL"; name := "Alphabet Inc.";
     expectedReturn := 0.14; volatility := 0.28; price := 2750.0 |}.
Definition MSFT : Asset :=
  {| symbol := "MSFT"; name := "Microsoft Corporation";
     expectedReturn := 0.11; volatility := 0.22; price := 415.25 |}.

(** Two assets of volatility [0]. *)
Definition riskless_a : Asset :=
  {| symbol := "A"; name := "Riskless A";
     expectedReturn := 0.12; volatility := 0; price := 10 |}.
Definition riskless_b : Asset :=
  {| symbol := "B"; name := "Riskless B";
     expectedReturn := 0.08; volatility := 0; price := 20 |}.


(** [new QuantumPortfolioOptimizer()], as the dashboard builds it. *)
Definition default_optimizer : QuantumPortfolioOptimizer :=
  constructor None None.

(** The two results the examples below refer to: the first two sample assets
    without constraints and with [maxWeight = 0.4], their loops run with
    enough fuel for the [100] passes of the default optimizer. *)
Definition no_result : OptimizationResult :=
  {| optimalWeights := []; or_expectedReturn := nan; or_volatility := nan;
     or_sharpeRatio := nan; convergenceData := []; iterations := 0 |}.

Definition sample_result : OptimizationResult :=
  Eval vm_compute in
    match optimizePortfolio exp_ref pow_ref default_optimizer 101
            [AAPL; GOOGL] no_constraints with
    | Some (inr res) => res
    | _ => no_result
    end.

(** Uniform weights, expected returns and a covariance matrix for two
    assets. *)
Definition sample_weights : list float := [0.5; 0.5].
Definition sample_returns : list float := [0.12; 0.14].
Definition sample_cov : matrix := [[0.0625; 0.021]; [0.021; 0.0784]].

Definition capped : Constraints :=
  {| minWeight := None; maxWeight := Some 0.4 |}.


(** ** The quantities of the specification

    Closed forms in the words of the specification, to which the loops of the
    class are compared.  A sum over an index range is accumulated from [0] in
    increasing index order. *)

Definition sum_list (l : list float) : float := fold_left add l 0.

Definition sum_upto (n : nat) (f : nat -> float) : float :=
  sum_list (map f (seq 0 n)).

(** [cov[i][j]] where no exception can arise. *)
Definition entry (cov : matrix) (i j : nat) : float :=
  arr_get (nth i cov []) j.

(** The value of the loop counter [iteration] in pass [k]: [0] incremented
    [k] times. *)
Definition iterationNumber (k : nat) : float :=
  Nat.iter k (fun x => x + 1) 0.

Section Specification.

Variable Math_exp : float -> float.
Variable Math_pow : float -> float -> float.

(** Section 4.1: [matrix[i][j] = (i == j) ? volatility_i^2
    : 0.3 * volatility_i * volatility_j]. *)
Definition spec_cov_entry (vol : nat -> float) (i j : nat) : float :=
  if (i =? j)%nat then Math_pow (vol i) 2 else 0.3 * vol i * vol j.

Definition spec_cov (assets : list Asset) : matrix :=
  let n := length assets in
  let vol k := nth k (map volatility assets) nan in
  map (fun i => map (fun j => spec_cov_entry vol i j) (seq 0 n)) (seq 0 n).

(** Section 4.2, for a risk-free rate [rf], expected returns [r] and a
    covariance matrix [cov]. *)
Variable rf : float.
Variable r : list float.
Variable cov : matrix.

(** [R(w) = sum_i w_i * r_i] *)
Definition spec_R (w : list float) : float :=
  sum_upto (length w) (fun i => arr_get w i * arr_get r i).

(** [V(w) = sum_i sum_j w_i * w_j * cov[i][j]], the terms taken row by
    row. *)
Definition spec_V (w : list float) : float :=
  let n := length w in
  sum_list
    (flat_map
       (fun i => map (fun j => arr_get w i * arr_get w j * entry cov i j)
                     (seq 0 n))
       (seq 0 n)).

(** [sigma(w) = sqrt (V(w))] *)
Definition spec_sigma (w : list float) : float := Math_sqrt (spec_V w).

(** [S(w) = (R(w) - riskFreeRate) / sigma(w)] *)
Definition spec_S (w : list float) : float :=
  (spec_R w - rf) / spec_sigma w.

(** The objective is [- S(w)]. *)
Definition spec_objective (w : list float) : float := - spec_S w.

(** [dV/dw_i = 2 * sum_j w_j * cov[i][j]], the factor [2] multiplying each
    term of the sum. *)
Definition spec_dV (w : list float) (i : nat) : float :=
  sum_upto (length w) (fun j => 2 * arr_get w j * entry cov i j).

(** [dsigma/dw_i = (dV/dw_i) / (2 * sigma)] *)
Definition spec_dsigma (w : list float) (i : nat) : float :=
  spec_dV w i / (2 * spec_sigma w).

(** [dS/dw_i = (r_i * sigma - (R - riskFreeRate) * dsigma/dw_i) / sigma^2] *)
Definition spec_dS (w : list float) (i : nat) : float :=
  (arr_get r i * spec_sigma w - (spec_R w - rf) * spec_dsigma w i)
  / Math_pow (spec_sigma w) 2.

(** [gradient[i] = - dS/dw_i] *)
Definition spec_gradient (w : list float) : list float :=
  map (fun i => - spec_dS w i) (seq 0 (length w)).

(** Section 4.3, for the bounds [lo] and [hi] in force. *)
Variable lo hi : float.

(** [clip(x, lo, hi)] *)
Definition spec_clip (x : float) : float := Math_max lo (Math_min hi x).

(** [learningRate = 0.01 * e^(- iteration / 50)] *)
Definition spec_learningRate (iteration : float) : float :=
  0.01 * Math_exp (- iteration / 50).

(** Step d: [candidate_i = clip(w_i - learningRate * g_i, lo, hi)]. *)
Definition spec_candidates (iteration : float) (w : list float)
  : list float :=
  map (fun i =>
         spec_clip (arr_get w i
                    - spec_learningRate iteration
                      * arr_get (spec_gradient w) i))
      (seq 0 (length w)).

(** Step e: [w = candidate / sum(candidate)], and no second clip. *)
Definition spec_step (iteration : float) (w : list float) : list float :=
  let candidate := spec_candidates iteration w in
  map (fun c => c / sum_list candidate) candidate.

(** The weights at the start of pass [k] for [n] assets: uniform at first,
    then one step per pass. *)
Fixpoint spec_weightsAt (n k : nat) : list float :=
  match k with
  | O => repeat (1 / of_nat n) n
  | S k' => spec_step (iterationNumber k') (spec_weightsAt n k')
  end.

(** Step g for pass [k]: [|newObjective - currentObjective| < tolerance]. *)
Definition spec_converged (tol : float) (n k : nat) : bool :=
  Math_abs (spec_objective (spec_weightsAt n (S k))
            - spec_objective (spec_weightsAt n k)) <? tol.

End Specification.

(** The quantities above for one call [optimizePortfolio(assets, constraints)]
    on an optimizer [this]: expected returns and covariances come from the
    assets, the bounds from the constraints after defaulting. *)
Section OneCall.

Variable Math_exp : float -> float.
Variable Math_pow : float -> float -> float.
Variable this : QuantumPortfolioOptimizer.
Variable assets : list Asset.
Variable constraints : Constraints.

Definition lowerBound : float := or_default (minWeight constraints) 0.
Definition upperBound : float := or_default (maxWeight constraints) 1.

Definition sharpeOf (w : list float) : float :=
  spec_S (riskFreeRate this) (map expectedReturn assets)
    (spec_cov Math_pow assets) w.

Definition gradientOf (w : list float) : list float :=
  spec_gradient Math_pow (riskFreeRate this) (map expectedReturn assets)
    (spec_cov Math_pow assets) w.

Definition weightsAtPass (k : nat) : list float :=
  spec_weightsAt Math_exp Math_pow (riskFreeRate this)
    (map expectedReturn assets) (spec_cov Math_pow assets)
    lowerBound upperBound (length assets) k.

Definition convergedAtPass (k : nat) : bool :=
  spec_converged Math_exp Math_pow (riskFreeRate this)
    (map expectedReturn assets) (spec_cov Math_pow assets)
    lowerBound upperBound (tolerance this) (length assets) k.

(** The guard [iteration < this.maxIterations] before pass [k]. *)
Definition guardAtPass (k : nat) : bool :=
  iterationNumber k <? maxIterations this.

(** The guard allows exactly [passes] passes: it holds before each of them
    and fails after the last. *)
Definition passesAllowed (passes : nat) : bool :=
  forallb guardAtPass (seq 0 passes) && negb (guardAtPass passes).

End OneCall.

(** ** Strings

    A JavaScript string is a sequence of code units; the strings modelled
    here are those of code units below 256, a [string] of characters. *)

Definition QUOTE : Ascii.ascii := Ascii.ascii_of_nat 34.
Definition COMMA : Ascii.ascii := Ascii.ascii_of_nat 44.
Definition NEWLINE : Ascii.ascii := Ascii.ascii_of_nat 10.

(** [ToBoolean] on a string: only the empty string is falsy. *)
Definition nonempty (s : string) : bool :=
  match s with
  | EmptyString => false
  | String _ _ => true
  end.

(** [s.includes(c)] for a single code unit [c]. *)
Fixpoint has_char (c : Ascii.ascii) (s : string) : bool :=
  match s with
  | EmptyString => false
  | String x rest => Ascii.eqb x c || has_char c rest
  end.

(** [s.split(sep)] for a single code unit [sep]. *)
Fixpoint split_from (sep : Ascii.ascii) (s current : string) : list string :=
  match s with
  | EmptyString => [current]
  | String c rest =>
    if Ascii.eqb c sep then current :: split_from sep rest EmptyString
    else split_from sep rest (current ++ String c EmptyString)
  end.

Definition split (sep : Ascii.ascii) (s : string) : list string :=
  split_from sep s EmptyString.

(** [s.includes(sub)]; [s.startsWith(sub)] is [prefix sub s]. *)
Fixpoint includes (sub s : string) : bool :=
  prefix sub s
  || match s with
     | EmptyString => false
     | String _ rest => includes sub rest
     end.

(** [s.replace(re, empty)] where [re] matches every double quote. *)
Fixpoint remove_quotes (s : string) : string :=
  match s with
  | EmptyString => EmptyString
  | String c rest =>
    if Ascii.eqb c QUOTE then remove_quotes rest
    else String c (remove_quotes rest)
  end.

(** [a.findIndex(p)], with [None] for [-1]. *)
Fixpoint findIndex_from {A : Type} (p : A -> bool) (a : list A) (i : nat)
  : option nat :=
  match a with
  | [] => None
  | x :: t => if p x then Some i else findIndex_from p t (S i)
  end.

Definition findIndex {A : Type} (p : A -> bool) (a : list A) : option nat :=
  findIndex_from p a 0.

(** The code units below 256 that [trim] removes: the white space and line
    terminators TAB, LF, VT, FF, CR, SP and NBSP. *)
Definition is_space (c : Ascii.ascii) : bool :=
  let n := Ascii.N_of_ascii c in
  ((9 <=? n) && (n <=? 13) || (n =? 32) || (n =? 160))%N.

Fixpoint trimStart (s : string) : string :=
  match s with
  | EmptyString => EmptyString
  | String c rest => if is_space c then trimStart rest else s
  end.

Fixpoint trimEnd (s : string) : string :=
  match s with
  | EmptyString => EmptyString
  | String c rest =>
    match trimEnd rest with
    | EmptyString => if is_space c then EmptyString else String c EmptyString
    | kept => String c kept
    end
  end.

(** [s.trim()] *)
Definition trim (s : string) : string := trimEnd (trimStart s).

(** The lower-case mapping of a code unit below 256: the letters A to Z and
    the capital letters of Latin-1 (192 to 222 without the multiplication
    sign 215) move up by 32. *)
Definition lower_char (c : Ascii.ascii) : Ascii.ascii :=
  let n := Ascii.N_of_ascii c in
  if ((65 <=? n) && (n <=? 90)
      || (192 <=? n) && (n <=? 222) && negb (n =? 215))%N
  then Ascii.ascii_of_N (n + 32) else c.

(** [s.toLowerCase()] *)
Fixpoint toLowerCase (s : string) : string :=
  match s with
  | EmptyString => EmptyString
  | String c rest => String (lower_char c) (toLowerCase rest)
  end.

(** [pieces.join(sep)] for a single code unit [sep]. *)
Definition join (sep : Ascii.ascii) (pieces : list string) : string :=
  String.concat (String sep EmptyString) pieces.

(** ** Numbers as text *)

(** The decimal digits of a non-negative integer. *)
Definition decimal (n : Z) : string :=
  DecimalString.NilZero.string_of_uint (N.to_uint (Z.to_N n)).

Fixpoint zeros (k : nat) : string :=
  match k with
  | O => EmptyString
  | S k' => String (Ascii.ascii_of_nat 48) (zeros k')
  end.

(** The integer [n] with the last [f] digits after a decimal point, as
    [Number.prototype.toFixed] writes it. *)
Definition fixed_notation (n : Z) (f : nat) : string :=
  let m := decimal n in
  if (f =? 0)%nat then m
  else
    let k := String.length m in
    let m := if (k <=? f)%nat then (zeros (f + 1 - k) ++ m)%string else m in
    let k := String.length m in
    (substring 0 (k - f) m ++ "." ++ substring (k - f) f m)%string.

(** The integer [n] for which [n / 10^f] is nearest to [m * 2^e], the larger
    one of two. *)
Definition nearest_scaled (m : positive) (e : Z) (f : nat) : Z :=
  let num := (Zpos m * 10 ^ Z.of_nat f)%Z in
  if (0 <=? e)%Z then (num * 2 ^ e)%Z
  else let d := (2 ^ (- e))%Z in ((2 * num + d) / (2 * d))%Z.

(** [x.toFixed(f)] for [0 <= f <= 100].  From [1e21] on the digits are those
    of [Number::toString], which the host chooses: [Number_toString]. *)
Definition toFixed (Number_toString : float -> string) (x : float) (f : nat)
  : string :=
  match Prim2SF x with
  | S754_nan => "NaN"%string
  | S754_infinity s => if s then "-Infinity"%string else "Infinity"%string
  | S754_zero _ => fixed_notation 0 f
  | S754_finite s m e =>
    let sign := if s then "-"%string else EmptyString in
    let digits :=
      if abs x <? 1e21 then fixed_notation (nearest_scaled m e f) f
      else Number_toString (abs x) in
    (sign ++ digits)%string
  end.

(** ** The class [ImportExportManager] *)

(** [parseCSVLine(line)]: the loop over the code units of [line], from the
    state [result], [current], [inQuotes]. *)
Fixpoint parseCSVLine_from (line : string) (result : list string)
    (current : string) (inQuotes : bool) : list string :=
  match line with
  | EmptyString => result ++ [current]
  | String char rest =>
    if Ascii.eqb char QUOTE then
      parseCSVLine_from rest result current (negb inQuotes)
    else if Ascii.eqb char COMMA && negb inQuotes then
      parseCSVLine_from rest (result ++ [current]) EmptyString inQuotes
    else
      parseCSVLine_from rest result (current ++ String char EmptyString)
        inQuotes
  end.

Definition parseCSVLine (line : string) : list string :=
  parseCSVLine_from line [] EmptyString false.

(** A text wrapped in double quotes, as the template literal around
    [asset.name] does. *)
Definition in_quotes (s : string) : string :=
  String QUOTE (s ++ String QUOTE EmptyString).

Section CsvExport.

Variable Number_toString : float -> string.

(** The row of one asset in [exportToCSV]; [weights] is the optional
    argument. *)
Definition assetRow (weights : option (list float)) (asset : Asset)
    (index : nat) : list string :=
  let weight :=
    or_default (match weights with
                | Some ws => nth_error ws index
                | None => None
                end) 0 in
  let allocationValue := weight * price asset in
  [symbol asset;
   in_quotes (name asset);
   toFixed Number_toString (expectedReturn asset) 4;
   toFixed Number_toString (volatility asset) 4;
   toFixed Number_toString (price asset) 2;
   toFixed Number_toString weight 4;
   toFixed Number_toString allocationValue 2].

(** The rows pushed when an optimization result is given. *)
Definition summaryRows (optimizationResult : OptimizationResult)
  : list (list string) :=
  let blank := EmptyString in
  [ [];
    ["Portfolio Summary"%string; blank; blank; blank; blank; blank; blank];
    ["Expected Return"%string;
     toFixed Number_toString (or_expectedReturn optimizationResult) 4;
     blank; blank; blank; blank; blank];
    ["Volatility"%string;
     toFixed Number_toString (or_volatility optimizationResult) 4;
     blank; blank; blank; blank; blank];
    ["Sharpe Ratio"%string;
     toFixed Number_toString (or_sharpeRatio optimizationResult) 4;
     blank; blank; blank; blank; blank];
    ["Iterations"%string;
     decimal (Z.of_nat (iterations optimizationResult));
     blank; blank; blank; blank; blank] ].

Definition csvHeaders : list string :=
  ["Symbol"; "Name"; "Expected Return"; "Volatility"; "Price";
   "Optimal Weight"; "Allocation Value"]%string.

(** The lines that [exportToCSV] joins. *)
Definition exportToCSV_lines (assets : list Asset)
    (weights : option (list float))
    (optimizationResult : option OptimizationResult) : list string :=
  let headers := csvHeaders in
  let rows := mapi (assetRow weights) assets in
  let rows :=
    match optimizationResult with
    | Some res => rows ++ summaryRows res
    | None => rows
    end in
  join COMMA headers :: map (join COMMA) rows.

(** [exportToCSV(assets, weights, optimizationResult)] *)
Definition exportToCSV (assets : list Asset) (weights : option (list float))
    (optimizationResult : option OptimizationResult) : string :=
  join NEWLINE (exportToCSV_lines assets weights optimizationResult).

(** The lines that [exportOptimizationResultsToCSV] joins. *)
Definition exportOptimizationResultsToCSV_lines
    (optimizationResult : OptimizationResult) : list string :=
  let headers := ["Iteration"; "Sharpe Ratio"; "Improvement"]%string in
  let rows :=
    mapi (fun sharpe index =>
            [decimal (Z.of_nat (index + 1));
             toFixed Number_toString sharpe 6;
             if (0 <? index)%nat
             then toFixed Number_toString
                    (sharpe
                     - arr_get (convergenceData optimizationResult)
                         (index - 1)) 6
             else "0"%string])
         (convergenceData optimizationResult) in
  join COMMA headers :: map (join COMMA) rows.

(** [exportOptimizationResultsToCSV(optimizationResult)] *)
Definition exportOptimizationResultsToCSV
    (optimizationResult : OptimizationResult) : string :=
  join NEWLINE (exportOptimizationResultsToCSV_lines optimizationResult).

End CsvExport.

Section CsvImport.

(** [String.prototype.toUpperCase] leaves the code units below 256 (the
    upper case of 255 is 376), and [Number.parseFloat] is the number parser
    of the host: both are taken from the host. *)
Variable String_toUpperCase : string -> string.
Variable Number_parseFloat : string -> float.

(** [index >= 0 ? Number.parseFloat(values[index]) || d : d] *)
Definition parsedOr (values : list string) (index : option nat) (d : float)
  : float :=
  match index with
  | Some i =>
    let parsed :=
      match nth_error values i with
      | Some v => Number_parseFloat v
      | None => nan
      end in
    or_default (Some parsed) d
  | None => d
  end.

(** The [for] loop of [importFromCSV] over the data lines, with its [break]
    and [continue]. *)
Fixpoint importRows (headers : list string)
    (symbolIndex : nat) (nameIndex returnIndex volatilityIndex priceIndex
                         : option nat)
    (rows : list string) (assets : list Asset) : list Asset :=
  match rows with
  | [] => assets
  | row :: rest =>
    let continue :=
      importRows headers symbolIndex nameIndex returnIndex volatilityIndex
        priceIndex rest in
    let line := trim row in
    if negb (nonempty line) || prefix "Portfolio Summary" line then assets
    else
      let values := parseCSVLine line in
      if (length values <? length headers)%nat then continue assets
      else
        match nth_error values symbolIndex with
        | None => continue assets
        | Some value =>
          let symbol := trim value in
          if negb (nonempty symbol) then continue assets
          else
            let asset :=
              {| symbol := String_toUpperCase symbol;
                 name :=
                   match nameIndex with
                   | Some i =>
                     match nth_error values i with
                     | Some v =>
                       let n := trim (remove_quotes v) in
                       if nonempty n then n else symbol
                     | None => symbol
                     end
                   | None => symbol
                   end;
                 expectedReturn := parsedOr values returnIndex 0.1;
                 volatility := parsedOr values volatilityIndex 0.2;
                 price := parsedOr values priceIndex 100 |} in
            if is_nan (expectedReturn asset) || is_nan (volatility asset)
               || is_nan (price asset)
            then continue assets
            else continue (assets ++ [asset])
        end
  end.

(** The messages of the errors thrown and rethrown by [importFromCSV]. *)
Definition csvError (message : string) : exn :=
  Error ("Failed to parse CSV: " ++ message).

(** What [importFromCSV(file)] resolves or rejects with once the file is read
    as [content]. *)
Definition importFromCSV (content : string) : result (list Asset) :=
  let lines :=
    filter (fun line => nonempty (trim line)) (split NEWLINE content) in
  match lines with
  | header :: (_ :: _) as rows =>
    let rows := tl lines in
    let headers :=
      map (fun h => toLowerCase (trim h)) (split COMMA header) in
    let symbolIndex := findIndex (fun h => includes "symbol" h) headers in
    let nameIndex := findIndex (fun h => includes "name" h) headers in
    let returnIndex := findIndex (fun h => includes "return" h) headers in
    let volatilityIndex :=
      findIndex (fun h => includes "volatility" h || includes "risk" h)
        headers in
    let priceIndex := findIndex (fun h => includes "price" h) headers in
    match symbolIndex with
    | None => inl (csvError "CSV must contain a 'Symbol' column")
    | Some symbolIndex =>
      let assets :=
        importRows headers symbolIndex nameIndex returnIndex volatilityIndex
          priceIndex rows [] in
      if (length assets =? 0)%nat
      then inl (csvError "No valid assets found in CSV file")
      else inr assets
    end
  | _ =>
    inl (csvError "CSV file must contain at least a header and one data row")
  end.

End CsvImport.

(** A cell of a CSV row as [exportToCSV] writes it: as it is, or wrapped in
    quotes; it can be read back when it holds no quote and, unless wrapped,
    no comma. *)
Definition write_cell (cell : bool * string) : string :=
  if fst cell then in_quotes (snd cell) else snd cell.

Definition readable_cell (cell : bool * string) : Prop :=
  has_char QUOTE (snd cell) = false
  /\ (fst cell = false -> has_char COMMA (snd cell) = false).

(** A number that [toFixed] writes in fixed notation, or as [NaN] or an
    infinity: one below [1e21] in magnitude, or not finite. *)
Definition printable (x : float) : bool :=
  (abs x <? 1e21) || is_nan x || is_infinity x.

(** The weight [exportToCSV] writes for the asset at [index]. *)
Definition exportedWeight (weights : option (list float)) (index : nat)
  : float :=
  or_default (match weights with
              | Some ws => nth_error ws index
              | None => None
              end) 0.

(** The characters of the text of a printable number. *)
Definition figure_alphabet : string := "0123456789.-NaInfity".

(** The cells of the row of one asset, those wrapped in quotes marked. *)
Definition assetCells (Number_toString : float -> string)
    (weights : option (list float)) (asset : Asset) (index : nat)
  : list (bool * string) :=
  let weight := exportedWeight weights index in
  [(false, symbol asset);
   (true, name asset);
   (false, toFixed Number_toString (expectedReturn asset) 4);
   (false, toFixed Number_toString (volatility asset) 4);
   (false, toFixed Number_toString (price asset) 2);
   (false, toFixed Number_toString weight 4);
   (false, toFixed Number_toString (weight * price asset) 2)].

(** The numbers written in the row of one asset. *)
Definition assetFigures (weights : option (list float)) (asset : Asset)
    (index : nat) : list float :=
  let weight := exportedWeight weights index in
  [expectedReturn asset; volatility asset; price asset; weight;
   weight * price asset].

(** An asset read by [importFromCSV] has numbers that are neither zero nor
    [NaN]. *)
Definition usable (asset : Asset) : Prop :=
  truthy (expectedReturn asset) = true
  /\ truthy (volatility asset) = true
  /\ truthy (price asset) = true.

(** A text that a CSV line carries unchanged: not empty, without white space
    around it, without quotes and line breaks. *)
Definition tidy (text : string) : Prop :=
  nonempty text = true
  /\ trim text = text
  /\ has_char QUOTE text = false
  /\ has_char NEWLINE text = false.

(** An asset whose exported row is read back as one asset. *)
Definition exportable (weights : option (list float)) (asset : Asset)
    (index : nat) : Prop :=
  tidy (symbol asset)
  /\ has_char COMMA (symbol asset) = false
  /\ prefix "Portfolio Summary" (symbol asset) = false
  /\ tidy (name asset)
  /\ forallb printable (assetFigures weights asset index) = true.

(** What [importFromCSV] makes of the exported row of [asset]. *)
Definition reimported (Number_toString : float -> string)
    (String_toUpperCase : string -> string)
    (Number_parseFloat : string -> float) (asset : Asset) : Asset :=
  let read x f := Number_parseFloat (toFixed Number_toString x f) in
  {| symbol := String_toUpperCase (symbol asset);
     name := name asset;
     expectedReturn :=
       or_default (Some (read (expectedReturn asset) 4%nat)) 0.1;
     volatility := or_default (Some (read (volatility asset) 4%nat)) 0.2;
     price := or_default (Some (read (price asset) 2%nat)) 100 |}.

(** The numbers written in the summary rows. *)
Definition summaryFigures (optimizationResult : option OptimizationResult)
  : list float :=
  match optimizationResult with
  | Some res => [or_expectedReturn res; or_volatility res; or_sharpeRatio res]
  | None => []
  end.

(** ** The dashboard: the weights saved with a result *)

(** The own properties of an object whose values are numbers or
    [undefined]: a list of keys with their values, each key once.  Only
    reading and writing a property are modelled, not the order in which the
    properties are enumerated. *)
Definition object : Type := list (string * option float).

(** [obj[key]] for an own property. *)
Definition get_property (obj : object) (key : string)
  : option (option float) :=
  option_map snd (find (fun p => String.eqb (fst p) key) obj).

(** [obj[key] = value] on an object made by an object literal: the key
    [__proto__] is the accessor of [Object.prototype], whose setter ignores
    a value that is not an object; another key is updated or created. *)
Definition set_property (obj : object) (key : string) (value : option float)
  : object :=
  if String.eqb key "__proto__" then obj
  else if existsb (fun p => String.eqb (fst p) key) obj
  then map (fun p => if String.eqb (fst p) key then (key, value) else p) obj
  else obj ++ [(key, value)].

(** The [reduce] of [handleOptimize] from the asset at [index] on, with the
    accumulator [acc]. *)
Fixpoint weightsObject_from (assets : list Asset)
    (optimalWeights : list float) (index : nat) (acc : object) : object :=
  match assets with
  | [] => acc
  | asset :: rest =>
    weightsObject_from rest optimalWeights (S index)
      (set_property acc (symbol asset) (nth_error optimalWeights index))
  end.

(** [weightsObject] of [handleOptimize] *)
Definition weightsObject (assets : list Asset) (optimalWeights : list float)
  : object :=
  weightsObject_from assets optimalWeights 0 [].

(** ** A reference host for the examples of import and export

    [upper_ref] is [toUpperCase] on the code units whose upper case is one
    code unit below 256.  [parseFloat_ref] reads white space, a sign and
    [Infinity] or digits with a fraction, without an exponent part; its
    value is the nearest number when the digits, read as one integer, are
    below [2^53] and the fraction has at most 22 digits.  The examples hold
    no number from [1e21] on, so the digits of [Number::toString] are never
    asked for: [toString_unused] stands for it. *)

Definition upper_char (c : Ascii.ascii) : Ascii.ascii :=
  let n := Ascii.N_of_ascii c in
  if ((97 <=? n) && (n <=? 122)
      || (224 <=? n) && (n <=? 254) && negb (n =? 247))%N
  then Ascii.ascii_of_N (n - 32) else c.

Fixpoint upper_ref (s : string) : string :=
  match s with
  | EmptyString => EmptyString
  | String c rest => String (upper_char c) (upper_ref rest)
  end.

Definition digit_value (c : Ascii.ascii) : option Z :=
  let n := Ascii.N_of_ascii c in
  if ((48 <=? n) && (n <=? 57))%N then Some (Z.of_N n - 48)%Z else None.

(** The digits at the start of [s], added to [value]; their number; the
    rest of [s]. *)
Fixpoint read_digits (s : string) (value : Z) (count : nat)
  : Z * nat * string :=
  match s with
  | EmptyString => (value, count, s)
  | String c rest =>
    match digit_value c with
    | Some d => read_digits rest (10 * value + d)%Z (S count)
    | None => (value, count, s)
    end
  end.

Definition of_Z (z : Z) : float := of_uint63 (Uint63.of_Z z).

Definition parseFloat_ref (s : string) : float :=
  let s := trimStart s in
  let '(negative, s) :=
    match s with
    | String c rest =>
      if Ascii.eqb c (Ascii.ascii_of_nat 45) then (true, rest)
      else if Ascii.eqb c (Ascii.ascii_of_nat 43) then (false, rest)
      else (false, s)
    | EmptyString => (false, s)
    end in
  let signed (x : float) := if negative : bool then - x else x in
  if prefix "Infinity" s then signed infinity
  else
    let '(whole, wholeDigits, rest) := read_digits s 0 0 in
    let '(all, fractionDigits, _) :=
      match rest with
      | String c rest' =>
        if Ascii.eqb c (Ascii.ascii_of_nat 46) then read_digits rest' whole 0
        else (whole, 0%nat, rest)
      | EmptyString => (whole, 0%nat, rest)
      end in
    if (wholeDigits + fractionDigits =? 0)%nat then nan
    else signed (of_Z all / of_Z (10 ^ Z.of_nat fractionDigits)).

Definition toString_unused (x : float) : string := EmptyString.

(** An asset whose expected return is not known. *)
Definition unknown_return : Asset :=
  {| symbol := "NEW"; name := "New listing";
     expectedReturn := nan; volatility := 0.3; price := 10 |}.

(** The lines of a CSV file whose asset has volatility [0], with a summary
    line and a line after it. *)
Definition sample_lines : list string :=
  ["Symbol,Return,Risk,Price"; "aapl,0.12,0,175.5"]%string.

Definition sample_summary : string := "Portfolio Summary,,,".

Definition sample_csv : string :=
  join NEWLINE
    (sample_lines ++ [sample_summary; "msft,0.11,0.22,415.25"%string]).

(** ** Loops and arrays: general facts *)

Lemma bind_ret_l {A B : Type} (a : A) (f : A -> result B) :
  bind (ret a) f = f a.
Proof. reflexivity. Qed.

(** A loop whose body does not throw under an invariant is a fold. *)
Lemma for_from_inv {S : Type} (P : S -> Prop) (body : nat -> S -> result S)
    (step : nat -> S -> S) :
  forall count start s,
    (forall k s', start <= k < start + count -> P s' ->
                  body k s' = ret (step k s') /\ P (step k s')) ->
    P s ->
    for_from start count body s
      = ret (fold_left (fun s' k => step k s') (seq start count) s)
    /\ P (fold_left (fun s' k => step k s') (seq start count) s).
Proof.
  induction count as [|c IH]; intros start s Hbody Hs.
  - split; [reflexivity | exact Hs].
  - destruct (Hbody start s) as [Hb HP]; [lia | exact Hs |].
    cbn [for_from seq fold_left]. rewrite Hb, bind_ret_l.
    apply IH; [| exact HP].
    intros k s' Hk Hs'. apply Hbody; [lia | exact Hs'].
Qed.

Lemma for_from_pure {S : Type} (body : nat -> S -> result S)
    (step : nat -> S -> S) (count start : nat) (s : S) :
  (forall k s', start <= k < start + count -> body k s' = ret (step k s')) ->
  for_from start count body s
    = ret (fold_left (fun s' k => step k s') (seq start count) s).
Proof.
  intro Hbody.
  apply (for_from_inv (fun _ => True) body step count start s); [| exact I].
  intros k s' Hk _. split; [apply Hbody; exact Hk | exact I].
Qed.

Lemma update_length {A : Type} (i : nat) (x : A) (l : list A) :
  length (update i x l) = length l.
Proof.
  revert i; induction l as [|h t IH]; intros [|i]; cbn; auto.
Qed.

Lemma update_app_r {A : Type} (pre : list A) (y x : A) (rest : list A) :
  update (length pre) x (pre ++ y :: rest) = pre ++ x :: rest.
Proof.
  induction pre as [|h t IH]; cbn; [reflexivity | now rewrite IH].
Qed.

Lemma nth_error_update_eq {A : Type} (i : nat) (x : A) (l : list A) :
  i < length l -> nth_error (update i x l) i = Some x.
Proof.
  revert i; induction l as [|h t IH]; intros [|i] H; cbn in *;
    try lia; [reflexivity | apply IH; lia].
Qed.

Lemma update_update {A : Type} (i : nat) (x y : A) (l : list A) :
  update i y (update i x l) = update i y l.
Proof.
  revert i; induction l as [|h t IH]; intros [|i]; cbn; auto.
  now rewrite IH.
Qed.

Lemma Forall_update {A : Type} (P : A -> Prop) (i : nat) (x : A) (l : list A) :
  P x -> Forall P l -> Forall P (update i x l).
Proof.
  intros Hx Hl; revert i; induction Hl as [|h t Hh Ht IH]; intros [|i]; cbn;
    constructor; auto.
Qed.

Lemma arr_set_in_range (a : list float) (i : nat) (x : float) :
  i < length a -> arr_set a i x = update i x a.
Proof.
  intro H. unfold arr_set.
  destruct (Nat.ltb_spec i (length a)); [reflexivity | lia].
Qed.

Lemma fill_app {A : Type} (g : nat -> A) :
  forall count pre rest,
    count <= length rest ->
    fill g (length pre) count (pre ++ rest)
      = pre ++ map g (seq (length pre) count) ++ skipn count rest.
Proof.
  unfold fill.
  induction count as [|c IH]; intros pre rest Hc; [reflexivity |].
  destruct rest as [|y rest]; [cbn in Hc; lia |].
  cbn [seq fold_left map skipn]. rewrite update_app_r.
  change (pre ++ g (length pre) :: rest)
    with (pre ++ [g (length pre)] ++ rest).
  rewrite app_assoc.
  replace (S (length pre)) with (length (pre ++ [g (length pre)]))
    by (rewrite length_app; cbn; lia).
  rewrite IH by (cbn in Hc; lia).
  now rewrite <- app_assoc.
Qed.

Lemma fill_all {A : Type} (g : nat -> A) (l : list A) :
  fill g 0 (length l) l = map g (seq 0 (length l)).
Proof.
  pose proof (fill_app g (length l) [] l (le_n _)) as H.
  cbn [length app] in H. now rewrite H, skipn_all, app_nil_r.
Qed.

Lemma arr_ref_in_range {A : Type} (a : list A) (i : nat) (d : A) :
  i < length a -> arr_ref a i = ret (nth i a d).
Proof.
  intro H. unfold arr_ref. now rewrite (nth_error_nth' a d H).
Qed.

Lemma arr_ref_out_of_range {A : Type} (a : list A) (i : nat) :
  length a <= i -> arr_ref a i = inl TypeError.
Proof.
  intro H. unfold arr_ref.
  now rewrite (proj2 (nth_error_None a i) H).
Qed.

(** ** Facts about binary64 arithmetic *)

Lemma binary_round_aux_opp (s : bool) (m e : Z) (l : location) :
  binary_round_aux prec emax (negb s) m e l
  = SFopp (binary_round_aux prec emax s m e l).
Proof.
  unfold binary_round_aux.
  destruct (shr_fexp prec emax m e l) as [mrs' e'].
  destruct (shr_fexp prec emax _ e' loc_Exact) as [mrs'' e''].
  destruct (shr_m mrs''); try reflexivity.
  destruct (Z.leb e'' (emax - prec)); reflexivity.
Qed.

Lemma opp_div (a b : float) : (- a) / b = - (a / b).
Proof.
  apply Prim2SF_inj.
  rewrite opp_spec, !div_spec, opp_spec.
  unfold SF64div, SFdiv.
  destruct (Prim2SF a) as [sa|sa| |sa ma ea],
           (Prim2SF b) as [sb|sb| |sb mb eb];
    cbn [SFopp]; try reflexivity; try (now rewrite negb_xorb_l).
  destruct (SFdiv_core_binary prec emax (Z.pos ma) ea (Z.pos mb) eb)
    as [[mz ez] lz].
  rewrite <- negb_xorb_l. apply binary_round_aux_opp.
Qed.

(** [NaN] absorbs every arithmetic operation. *)
Ltac nan_operand spec x :=
  apply Prim2SF_inj; rewrite spec; change (Prim2SF nan) with S754_nan;
  destruct (Prim2SF x); reflexivity.

Lemma mul_nan_r (x : float) : x * nan = nan.
Proof. nan_operand mul_spec x. Qed.

Lemma mul_nan_l (x : float) : nan * x = nan.
Proof. nan_operand mul_spec x. Qed.

Lemma add_nan_r (x : float) : x + nan = nan.
Proof. nan_operand add_spec x. Qed.

Lemma add_nan_l (x : float) : nan + x = nan.
Proof. nan_operand add_spec x. Qed.

Lemma sub_nan_r (x : float) : x - nan = nan.
Proof. nan_operand sub_spec x. Qed.

Lemma sub_nan_l (x : float) : nan - x = nan.
Proof. nan_operand sub_spec x. Qed.

Lemma div_nan_r (x : float) : x / nan = nan.
Proof. nan_operand div_spec x. Qed.

Lemma div_nan_l (x : float) : nan / x = nan.
Proof. nan_operand div_spec x. Qed.

Lemma ltb_nan_l (x : float) : (nan <? x) = false.
Proof.
  rewrite FloatAxioms.ltb_spec. change (Prim2SF nan) with S754_nan.
  reflexivity.
Qed.

(** The order of binary64 values that are not [NaN]. *)
Lemma SFcompare_refl (x : spec_float) :
  x <> S754_nan -> SFcompare x x = Some Eq.
Proof.
  destruct x as [s|s| |s m e]; intro H; cbn.
  - reflexivity.
  - now destruct s.
  - congruence.
  - pose proof (Z.compare_refl e) as He.
    pose proof (Pos.compare_cont_refl m Eq) as Hm.
    destruct s; rewrite He, Hm; reflexivity.
Qed.

Lemma ltb_irrefl (x : float) : (x <? x) = false.
Proof.
  rewrite FloatAxioms.ltb_spec. unfold SFltb.
  destruct (Prim2SF x) as [s|s| |s m e] eqn:E; [| | reflexivity |];
    now rewrite SFcompare_refl.
Qed.











(** ** The covariance estimator *)

Lemma arr_ref_some {A : Type} (a : list A) (i : nat) :
  i < length a -> exists x, nth_error a i = Some x /\ arr_ref a i = ret x.
Proof.
  intro H. unfold arr_ref.
  destruct (nth_error a i) as [x|] eqn:E; [now exists x |].
  apply nth_error_None in E. lia.
Qed.

Lemma nth_map_some {A : Type} (f : A -> float) (a : list A) (i : nat) (x : A) :
  nth_error a i = Some x -> nth i (map f a) nan = f x.
Proof.
  intro H. apply nth_error_nth. now apply map_nth_error.
Qed.

(** One row of a matrix written entry by entry. *)
Lemma row_loop (g : nat -> float) (i : nat)
    (body : nat -> matrix -> result matrix) :
  forall count start m row,
    nth_error m i = Some row ->
    start + count <= length row ->
    (forall j m', start <= j < start + count ->
                  body j m' = mat_set m' i j (g j)) ->
    for_from start count body m = ret (update i (fill g start count row) m).
Proof.
  induction count as [|c IH]; intros start m row Hrow Hlen Hbody.
  - cbn. f_equal. clear - Hrow. revert i Hrow.
    induction m as [|h t IHm]; intros [|i] H; cbn in *; try discriminate.
    + now inversion H.
    + f_equal. now apply IHm.
  - assert (Hi : i < length m) by (apply nth_error_Some; congruence).
    cbn [for_from]. rewrite Hbody by lia.
    unfold mat_set, arr_ref. rewrite Hrow. cbn [bind ret].
    rewrite arr_set_in_range by lia.
    rewrite (IH (S start) _ (update start (g start) row)).
    + now rewrite update_update.
    + now apply nth_error_update_eq.
    + rewrite update_length. lia.
    + intros j m' Hj. apply Hbody. lia.
Qed.

Lemma calculateCovarianceMatrix_closed (Math_pow : float -> float -> float)
    (assets : list Asset) :
  calculateCovarianceMatrix Math_pow assets = ret (spec_cov Math_pow assets).
Proof.
  unfold calculateCovarianceMatrix, spec_cov, for_loop.
  set (n := length assets).
  set (vol := fun k => nth k (map volatility assets) nan).
  set (rowval :=
         fun i => map (fun j => spec_cov_entry Math_pow vol i j) (seq 0 n)).
  set (P := fun m : matrix =>
              length m = n /\ Forall (fun r => length r = n) m).
  match goal with |- for_from 0 n ?b ?m0 = _ =>
    destruct (for_from_inv P b (fun i m => update i (rowval i) m) n 0 m0)
      as [Hrun _]
  end.
  - intros i m Hi [Hlen Hrows]. split.
    + destruct (nth_error m i) as [row|] eqn:Hrow;
        [| apply nth_error_None in Hrow; lia].
      assert (Hr : length row = n).
      { rewrite Forall_forall in Hrows. apply Hrows.
        eapply nth_error_In; eauto. }
      rewrite (row_loop (spec_cov_entry Math_pow vol i) i _ n 0 m row Hrow).
      * unfold rowval. rewrite <- Hr. now rewrite fill_all.
      * lia.
      * intros j m' Hj.
        destruct (arr_ref_some assets i) as [ai [Hai Ei]]; [fold n; lia |].
        destruct (arr_ref_some assets j) as [aj [Haj Ej]]; [fold n; lia |].
        unfold spec_cov_entry, vol.
        rewrite (nth_map_some volatility assets i ai Hai).
        rewrite (nth_map_some volatility assets j aj Haj).
        destruct (i =? j)%nat; rewrite Ei; cbn [bind ret]; [reflexivity |].
        rewrite Ej. reflexivity.
    + split.
      * now rewrite update_length.
      * apply Forall_update; [| exact Hrows].
        unfold rowval. now rewrite length_map, length_seq.
  - split.
    + apply repeat_length.
    + apply Forall_forall. intros r Hr. apply repeat_spec in Hr. subst r.
      apply repeat_length.
  - rewrite Hrun. f_equal.
    change (fill rowval 0 n (repeat (repeat 0 n) n) = map rowval (seq 0 n)).
    pose proof (fill_all rowval (repeat (repeat 0 n) n)) as H.
    now rewrite repeat_length in H.
Qed.

Lemma nth_error_seq0 (n i : nat) : i < n -> nth_error (seq 0 n) i = Some i.
Proof.
  intro H. rewrite nth_error_nth' with (d := 0%nat) by (now rewrite length_seq).
  now rewrite seq_nth.
Qed.

Lemma mat_get_tabulate (f : nat -> nat -> float) (n i j : nat) :
  i < n -> j < n ->
  mat_get (map (fun i' => map (fun j' => f i' j') (seq 0 n)) (seq 0 n)) i j
    = ret (f i j).
Proof.
  intros Hi Hj. unfold mat_get, arr_ref.
  rewrite (map_nth_error _ i (seq 0 n) (nth_error_seq0 n i Hi)).
  cbn [bind ret]. unfold arr_get. f_equal.
  apply nth_error_nth.
  apply (map_nth_error _ j (seq 0 n) (nth_error_seq0 n j Hj)).
Qed.

(** C7 (as amended).  For every asset list of [n] assets, also the empty one,
    the covariance estimator returns without throwing an [n] by [n] matrix
    whose entry [[i][j]] is [Math.pow(volatility_i, 2)] when [i = j] and the
    binary64 product [(0.3 * volatility_i) * volatility_j] otherwise.  The
    entry [[j][i]] is the same product with the two volatilities exchanged:
    the matrix is symmetric up to the rounding of the two orders of
    multiplication, not bit for bit. *)
Theorem covariance_matrix_entries :
  forall (Math_pow : float -> float -> float) (assets : list Asset),
  exists M : matrix,
    calculateCovarianceMatrix Math_pow assets = inr M
    /\ length M = length assets
    /\ Forall (fun row => length row = length assets) M
    /\ forall i j ai aj,
         nth_error assets i = Some ai ->
         nth_error assets j = Some aj ->
         mat_get M i j
           = inr (if (i =? j)%nat then Math_pow (volatility ai) 2
                  else 0.3 * volatility ai * volatility aj).
Proof.
  intros Math_pow assets. exists (spec_cov Math_pow assets).
  split; [apply calculateCovarianceMatrix_closed |].
  unfold spec_cov. set (n := length assets).
  split; [now rewrite length_map, length_seq |].
  split.
  - apply Forall_forall. intros row Hrow.
    apply in_map_iff in Hrow. destruct Hrow as [i [<- _]].
    now rewrite length_map, length_seq.
  - intros i j ai aj Hai Haj.
    assert (Hi : i < n) by (apply nth_error_Some; congruence).
    assert (Hj : j < n) by (apply nth_error_Some; congruence).
    rewrite mat_get_tabulate by assumption.
    unfold spec_cov_entry.
    rewrite (nth_map_some volatility assets i ai Hai).
    now rewrite (nth_map_some volatility assets j aj Haj).
Qed.

(** C7, the counterexample.  On the sample assets of the source file the
    entries [[1][2]] and [[2][1]] differ in the last bit:
    [0.3 * 0.28 * 0.22] is [0.01848] and [0.3 * 0.22 * 0.28] is
    [0.018480000000000003]. *)
Lemma covariance_matrix_not_symmetric :
  exists (M : matrix) (a b : float),
    calculateCovarianceMatrix pow_ref [AAPL; GOOGL; MSFT] = inr M
    /\ mat_get M 1 2 = inr a
    /\ mat_get M 2 1 = inr b
    /\ (a =? b) = false.
Proof.
  exists (spec_cov pow_ref [AAPL; GOOGL; MSFT]),
         (0.3 * 0.28 * 0.22), (0.3 * 0.22 * 0.28).
  repeat split; vm_compute; reflexivity.
Qed.

(** ** The objective and gradient evaluator *)

Lemma fold_left_add_map {A : Type} (f : A -> float) (l : list A) (acc : float) :
  fold_left add (map f l) acc = fold_left (fun a k => a + f k) l acc.
Proof.
  revert acc; induction l as [|x t IH]; intro acc; cbn; auto.
Qed.

Lemma fold_left_add_flat_map {A : Type} (g : A -> list float) (l : list A)
    (acc : float) :
  fold_left add (flat_map g l) acc
    = fold_left (fun a i => fold_left add (g i) a) l acc.
Proof.
  revert acc; induction l as [|x t IH]; intro acc; cbn; [reflexivity |].
  now rewrite fold_left_app, IH.
Qed.

Lemma fold_left_ext_in {A B : Type} (f g : B -> A -> B) (l : list A) (b : B) :
  (forall a x, In x l -> f a x = g a x) ->
  fold_left f l b = fold_left g l b.
Proof.
  revert b; induction l as [|x t IH]; intros b H; cbn; [reflexivity |].
  rewrite H by (now left). apply IH. intros a y Hy. apply H. now right.
Qed.

Lemma reduce_from_sum (r : list float) :
  forall (t pre : list float) (acc : float),
    reduce_from (fun sum w i => sum + w * arr_get r i) (length pre) t acc
      = fold_left add
          (map (fun k => arr_get (pre ++ t) k * arr_get r k)
               (seq (length pre) (length t)))
          acc.
Proof.
  induction t as [|x t IH]; intros pre acc; [reflexivity |].
  cbn [reduce_from length seq map fold_left].
  change (arr_get (pre ++ x :: t) (length pre))
    with (nth (length pre) (pre ++ x :: t) nan).
  rewrite nth_middle.
  replace (S (length pre)) with (length (pre ++ [x]))
    by (rewrite length_app; cbn; lia).
  rewrite IH. now rewrite <- app_assoc.
Qed.

Lemma portfolioReturn_closed (w r : list float) :
  portfolioReturn w r = spec_R r w.
Proof.
  unfold portfolioReturn, reduce, spec_R, sum_upto, sum_list.
  exact (reduce_from_sum r w [] 0).
Qed.

Lemma reduce_sum (l : list float) :
  reduce (fun s w (_ : nat) => s + w) 0 l = sum_list l.
Proof.
  unfold reduce, sum_list. generalize 0. generalize 0%nat.
  induction l as [|x t IH]; intros i acc; cbn; auto.
Qed.

Lemma mapi_from_seq {A B : Type} (f : A -> nat -> B) (d : A) :
  forall (t pre : list A),
    mapi_from f (length pre) t
      = map (fun k => f (nth k (pre ++ t) d) k) (seq (length pre) (length t)).
Proof.
  induction t as [|x t IH]; intros pre; [reflexivity |].
  cbn [mapi_from length seq map]. rewrite nth_middle. f_equal.
  replace (S (length pre)) with (length (pre ++ [x]))
    by (rewrite length_app; cbn; lia).
  rewrite IH. now rewrite <- app_assoc.
Qed.

Lemma mapi_seq {A B : Type} (f : A -> nat -> B) (d : A) (l : list A) :
  mapi f l = map (fun k => f (nth k l d) k) (seq 0 (length l)).
Proof. exact (mapi_from_seq f d l []). Qed.

Lemma mat_get_entry (cov : matrix) (i j : nat) :
  i < length cov -> mat_get cov i j = ret (entry cov i j).
Proof.
  intro H. unfold mat_get, entry.
  now rewrite (arr_ref_in_range cov i [] H).
Qed.

Lemma mat_get_throws (cov : matrix) (i j : nat) :
  length cov <= i -> mat_get cov i j = inl TypeError.
Proof.
  intro H. unfold mat_get. now rewrite arr_ref_out_of_range.
Qed.

Lemma portfolioVariance_closed (w : list float) (cov : matrix) :
  length w <= length cov ->
  portfolioVariance w cov = ret (spec_V cov w).
Proof.
  intro Hdim. unfold portfolioVariance, for_loop, spec_V, sum_list.
  set (n := length w).
  rewrite (for_from_pure _
             (fun i pv =>
                fold_left
                  (fun pv' j => pv' + arr_get w i * arr_get w j * entry cov i j)
                  (seq 0 n) pv)).
  - f_equal. rewrite fold_left_add_flat_map.
    apply fold_left_ext_in. intros a i _. now rewrite fold_left_add_map.
  - intros i pv Hi.
    apply (for_from_pure _
             (fun j pv' => pv' + arr_get w i * arr_get w j * entry cov i j)).
    intros j pv' Hj. now rewrite mat_get_entry by lia.
Qed.

Lemma objectiveFunction_closed (this : QuantumPortfolioOptimizer)
    (w r : list float) (cov : matrix) :
  length w <= length cov ->
  objectiveFunction this w r cov
    = ret (spec_objective (riskFreeRate this) r cov w).
Proof.
  intro Hdim. unfold objectiveFunction.
  rewrite portfolioVariance_closed by exact Hdim.
  cbn [bind ret]. now rewrite portfolioReturn_closed.
Qed.

Lemma calculateGradients_closed (Math_pow : float -> float -> float)
    (this : QuantumPortfolioOptimizer) (w r : list float) (cov : matrix) :
  length w <= length cov ->
  calculateGradients Math_pow this w r cov
    = ret (spec_gradient Math_pow (riskFreeRate this) r cov w).
Proof.
  intro Hdim. unfold calculateGradients.
  rewrite portfolioVariance_closed by exact Hdim.
  cbn [bind ret]. rewrite portfolioReturn_closed.
  unfold for_loop. set (n := length w).
  set (g := fun i => - spec_dS Math_pow (riskFreeRate this) r cov w i).
  match goal with |- for_from 0 n ?b ?l0 = _ =>
    destruct (for_from_inv (fun l => length l = n) b
                (fun i l => update i (g i) l) n 0 l0) as [Hrun _]
  end.
  - intros i l Hi Hl. split; [| now rewrite update_length].
    rewrite (for_from_pure _
               (fun j vg => vg + 2 * arr_get w j * entry cov i j)).
    + cbn [bind ret]. rewrite arr_set_in_range by lia. f_equal. f_equal.
      unfold g, spec_dS, spec_dsigma, spec_dV, spec_sigma, sum_upto, sum_list.
      fold n. rewrite fold_left_add_map. now rewrite opp_div.
    + intros j vg Hj. now rewrite mat_get_entry by lia.
  - apply repeat_length.
  - rewrite Hrun. f_equal. unfold spec_gradient. fold n.
    change (fill g 0 n (repeat 0 n) = map g (seq 0 n)).
    pose proof (fill_all g (repeat 0 n)) as H.
    now rewrite repeat_length in H.
Qed.

(** ** The optimization loop *)

Lemma opp_involutive (x : float) : - - x = x.
Proof.
  apply Prim2SF_inj. rewrite !opp_spec.
  destruct (Prim2SF x); cbn; now rewrite ?negb_involutive.
Qed.

Lemma opp_spec_objective (rf : float) (r : list float) (cov : matrix)
    (w : list float) :
  - spec_objective rf r cov w = spec_S rf r cov w.
Proof. unfold spec_objective. apply opp_involutive. Qed.

Section LoopTrace.

Variable Math_exp : float -> float.
Variable Math_pow : float -> float -> float.
Variable this : QuantumPortfolioOptimizer.
Variable r : list float.
Variable cov : matrix.
Variable lo hi : float.
Variable n : nat.
Hypothesis cov_rows : n <= length cov.

Let rf := riskFreeRate this.
Let W := spec_weightsAt Math_exp Math_pow rf r cov lo hi n.
Let converged := spec_converged Math_exp Math_pow rf r cov lo hi
                   (tolerance this) n.

Lemma spec_step_length (iteration : float) (w : list float) :
  length (spec_step Math_exp Math_pow rf r cov lo hi iteration w) = length w.
Proof.
  unfold spec_step, spec_candidates.
  now rewrite !length_map, length_seq.
Qed.

Lemma spec_weightsAt_length (k : nat) : length (W k) = n.
Proof.
  unfold W. induction k as [|k IH]; cbn [spec_weightsAt].
  - apply repeat_length.
  - now rewrite spec_step_length.
Qed.

(** One pass of the loop body, on weights of the right dimension: the
    Sharpe ratio of the weights is recorded, the weights take the step of
    the specification, and the test compares the two objectives. *)
Lemma loopBody_pass (iteration : float) (w conv : list float) :
  length w = n ->
  loopBody Math_exp Math_pow this r cov lo hi iteration w conv
  = let w' := spec_step Math_exp Math_pow rf r cov lo hi iteration w in
    ret (Math_abs (spec_objective rf r cov w' - spec_objective rf r cov w)
         <? tolerance this,
         (w', conv ++ [spec_S rf r cov w])).
Proof.
  intro Hw. unfold loopBody.
  rewrite objectiveFunction_closed by lia. cbn [bind ret].
  rewrite calculateGradients_closed by lia. cbn [bind ret].
  rewrite reduce_sum, (mapi_seq _ nan).
  fold rf.
  change (map (fun k => Math_max lo (Math_min hi
                 (nth k w nan
                  - 0.01 * Math_exp (- iteration / 50)
                    * arr_get (spec_gradient Math_pow rf r cov w) k)))
              (seq 0 (length w)))
    with (spec_candidates Math_exp Math_pow rf r cov lo hi iteration w).
  change (map (fun x => x / sum_list
                 (spec_candidates Math_exp Math_pow rf r cov lo hi iteration w))
              (spec_candidates Math_exp Math_pow rf r cov lo hi iteration w))
    with (spec_step Math_exp Math_pow rf r cov lo hi iteration w).
  rewrite objectiveFunction_closed by (rewrite spec_step_length; lia).
  cbn [bind ret]. fold rf.
  now rewrite opp_spec_objective.
Qed.

(** One turn of the loop: the guard, the pass, the [break]. *)
Lemma optimizationLoop_pass (fuel : nat) (iteration : float)
    (w conv : list float) :
  length w = n ->
  optimizationLoop Math_exp Math_pow this r cov lo hi (S fuel)
    iteration w conv
  = if iteration <? maxIterations this then
      let w' := spec_step Math_exp Math_pow rf r cov lo hi iteration w in
      let conv' := conv ++ [spec_S rf r cov w] in
      if Math_abs (spec_objective rf r cov w' - spec_objective rf r cov w)
         <? tolerance this
      then Some (ret (w', conv'))
      else optimizationLoop Math_exp Math_pow this r cov lo hi fuel
             (iteration + 1) w' conv'
    else Some (ret (w, conv)).
Proof.
  intro Hw. cbn [optimizationLoop].
  rewrite loopBody_pass by exact Hw. cbv zeta. cbn [ret].
  destruct (iteration <? maxIterations this); [| reflexivity].
  now destruct (Math_abs _ <? tolerance this).
Qed.

(** The loop started before pass [a], when it is left: it ran [m] passes,
    each allowed by the guard, recorded the Sharpe ratio of the weights at
    the start of each, and was left by the guard or after a pass whose
    convergence test succeeded, the first to do so. *)
Lemma optimizationLoop_trace :
  forall (fuel a : nat) (conv : list float)
         (out : result (list float * list float)),
    optimizationLoop Math_exp Math_pow this r cov lo hi fuel
      (iterationNumber a) (W a) conv = Some out ->
    exists m : nat,
      out = ret (W (a + m)%nat,
                 conv ++ map (fun k => spec_S rf r cov (W k)) (seq a m))
      /\ (forall k, a <= k -> (k < a + m)%nat -> guardAtPass this k = true)
      /\ (forall k, a <= k -> (S k < a + m)%nat -> converged k = false)
      /\ (guardAtPass this (a + m) = false
          \/ ((1 <= m)%nat /\ converged (a + m - 1)%nat = true)).
Proof.
  induction fuel as [|fuel IH]; intros a conv out Hrun; [discriminate Hrun |].
  rewrite optimizationLoop_pass in Hrun by apply spec_weightsAt_length.
  cbv zeta in Hrun.
  change (iterationNumber a <? maxIterations this)
    with (guardAtPass this a) in Hrun.
  change (spec_step Math_exp Math_pow rf r cov lo hi (iterationNumber a)
            (W a))
    with (W (S a)) in Hrun.
  change (Math_abs (spec_objective rf r cov (W (S a))
                    - spec_objective rf r cov (W a)) <? tolerance this)
    with (converged a) in Hrun.
  destruct (guardAtPass this a) eqn:Hg.
  - destruct (converged a) eqn:Hc.
    + injection Hrun as <-. exists 1%nat. split; [| split; [| split]].
      * now rewrite Nat.add_1_r.
      * intros k Hk1 Hk2. now replace k with a by lia.
      * intros; lia.
      * right. split; [lia |]. now replace (a + 1 - 1)%nat with a by lia.
    + change (iterationNumber a + 1) with (iterationNumber (S a)) in Hrun.
      destruct (IH (S a) _ out Hrun) as (m & -> & Hguard & Hno & Hend).
      exists (S m). split; [| split; [| split]].
      * rewrite <- app_assoc.
        now replace (S a + m)%nat with (a + S m)%nat by lia.
      * intros k Hk1 Hk2.
        destruct (Nat.eq_dec k a) as [-> | Hne]; [exact Hg |].
        apply Hguard; lia.
      * intros k Hk1 Hk2.
        destruct (Nat.eq_dec k a) as [-> | Hne]; [exact Hc |].
        apply Hno; lia.
      * replace (a + S m)%nat with (S a + m)%nat by lia.
        destruct Hend as [Hend | [Hm Hend]]; [now left |].
        right. split; [lia | exact Hend].
  - injection Hrun as <-. exists 0%nat. split; [| split; [| split]].
    + cbn. now rewrite Nat.add_0_r, app_nil_r.
    + intros; lia.
    + intros; lia.
    + left. now rewrite Nat.add_0_r.
Qed.

(** The loop is left once the guard fails: fuel beyond a pass at which it
    fails is enough. *)
Lemma optimizationLoop_ends :
  forall (passes fuel a : nat) (conv : list float),
    guardAtPass this (a + passes) = false ->
    (passes < fuel)%nat ->
    exists out : result (list float * list float),
      optimizationLoop Math_exp Math_pow this r cov lo hi fuel
        (iterationNumber a) (W a) conv = Some out.
Proof.
  induction passes as [|passes IH]; intros fuel a conv Hguard Hfuel;
    (destruct fuel as [|fuel]; [lia |]);
    rewrite optimizationLoop_pass by apply spec_weightsAt_length;
    cbv zeta;
    change (iterationNumber a <? maxIterations this)
      with (guardAtPass this a).
  - rewrite Nat.add_0_r in Hguard. rewrite Hguard. eauto.
  - destruct (guardAtPass this a); [| eauto].
    destruct (Math_abs _ <? tolerance this); [eauto |].
    change (iterationNumber a + 1) with (iterationNumber (S a)).
    change (spec_step Math_exp Math_pow rf r cov lo hi (iterationNumber a)
              (W a))
      with (W (S a)).
    apply IH; [| lia].
    now replace (S a + passes)%nat with (a + S passes)%nat by lia.
Qed.

End LoopTrace.

(** More fuel does not change what a loop that was left returns. *)
Lemma optimizationLoop_more_fuel (Math_exp : float -> float)
    (Math_pow : float -> float -> float) (this : QuantumPortfolioOptimizer)
    (r : list float) (cov : matrix) (lo hi : float) :
  forall (fuel fuel' : nat) (iteration : float) (w conv : list float)
         (out : result (list float * list float)),
    optimizationLoop Math_exp Math_pow this r cov lo hi fuel iteration w conv
    = Some out ->
    (fuel <= fuel')%nat ->
    optimizationLoop Math_exp Math_pow this r cov lo hi fuel' iteration w
      conv = Some out.
Proof.
  induction fuel as [|fuel IH]; intros fuel' iteration w conv out Hrun Hle;
    [discriminate Hrun |].
  destruct fuel' as [|fuel']; [lia |].
  cbn [optimizationLoop] in *.
  destruct (iteration <? maxIterations this); [| exact Hrun].
  destruct (loopBody Math_exp Math_pow this r cov lo hi iteration w conv)
    as [e | [[|] [w' conv']]]; try exact Hrun.
  apply IH; [exact Hrun | lia].
Qed.

(** ** The optimizer entry points *)

Lemma spec_cov_length (Math_pow : float -> float -> float)
    (assets : list Asset) :
  length (spec_cov Math_pow assets) = length assets.
Proof. unfold spec_cov. now rewrite length_map, length_seq. Qed.

(** The result that [quantumOptimization] reports after [m] passes. *)
Lemma quantumOptimization_loop (Math_exp : float -> float)
    (Math_pow : float -> float -> float) (this : QuantumPortfolioOptimizer)
    (fuel : nat) (assets : list Asset) (c : Constraints) :
  quantumOptimization Math_exp Math_pow this fuel assets c
  = match optimizationLoop Math_exp Math_pow this
            (map expectedReturn assets) (spec_cov Math_pow assets)
            (lowerBound c) (upperBound c) fuel (iterationNumber 0)
            (weightsAtPass Math_exp Math_pow this assets c 0) [] with
    | None => None
    | Some (inl e) => Some (inl e)
    | Some (inr (weights, convergenceData)) =>
      Some
        (portfolioVariance <-
           portfolioVariance weights (spec_cov Math_pow assets) ;;
         ret {| optimalWeights := weights;
                or_expectedReturn :=
                  portfolioReturn weights (map expectedReturn assets);
                or_volatility := Math_sqrt portfolioVariance;
                or_sharpeRatio :=
                  (portfolioReturn weights (map expectedReturn assets)
                   - riskFreeRate this) / Math_sqrt portfolioVariance;
                convergenceData := convergenceData;
                iterations := length convergenceData |})
    end.
Proof.
  unfold quantumOptimization.
  now rewrite calculateCovarianceMatrix_closed.
Qed.

(** What [quantumOptimization] returns when its loop is left: it does not
    throw, has run [m] passes and reports the weights reached, their metrics
    and the recorded trace. *)
Lemma quantumOptimization_trace (Math_exp : float -> float)
    (Math_pow : float -> float -> float) (this : QuantumPortfolioOptimizer)
    (fuel : nat) (assets : list Asset) (c : Constraints)
    (out : result OptimizationResult) :
  quantumOptimization Math_exp Math_pow this fuel assets c = Some out ->
  exists m : nat,
    out = ret {| optimalWeights :=
                   weightsAtPass Math_exp Math_pow this assets c m;
                 or_expectedReturn :=
                   spec_R (map expectedReturn assets)
                     (weightsAtPass Math_exp Math_pow this assets c m);
                 or_volatility :=
                   spec_sigma (spec_cov Math_pow assets)
                     (weightsAtPass Math_exp Math_pow this assets c m);
                 or_sharpeRatio :=
                   sharpeOf Math_pow this assets
                     (weightsAtPass Math_exp Math_pow this assets c m);
                 convergenceData :=
                   map (fun k =>
                          sharpeOf Math_pow this assets
                            (weightsAtPass Math_exp Math_pow this assets c k))
                       (seq 0 m);
                 iterations := m |}
    /\ (forall k, (k < m)%nat -> guardAtPass this k = true)
    /\ (forall k, (S k < m)%nat ->
                  convergedAtPass Math_exp Math_pow this assets c k = false)
    /\ (guardAtPass this m = false
        \/ ((1 <= m)%nat
            /\ convergedAtPass Math_exp Math_pow this assets c (m - 1)
               = true)).
Proof.
  intro Hrun. rewrite quantumOptimization_loop in Hrun.
  pose proof (spec_cov_length Math_pow assets) as Hcov.
  destruct (optimizationLoop _ _ _ _ _ _ _ _ _ _ _) as [loop |] eqn:Hloop;
    [| discriminate Hrun].
  destruct (optimizationLoop_trace Math_exp Math_pow this
              (map expectedReturn assets) (spec_cov Math_pow assets)
              (lowerBound c) (upperBound c) (length assets)
              (eq_ind_r (fun x => (length assets <= x)%nat) (le_n _) Hcov)
              fuel 0%nat [] loop Hloop)
    as (m & -> & Hguard & Hno & Hend).
  exists m. cbn [ret app Nat.add] in *.
  split; [| split; [| split]].
  - injection Hrun as <-.
    change (spec_weightsAt Math_exp Math_pow (riskFreeRate this)
              (map expectedReturn assets) (spec_cov Math_pow assets)
              (lowerBound c) (upperBound c) (length assets))
      with (weightsAtPass Math_exp Math_pow this assets c).
    assert (Hlen : length (weightsAtPass Math_exp Math_pow this assets c m)
                   = length assets)
      by (unfold weightsAtPass; apply spec_weightsAt_length).
    rewrite portfolioVariance_closed by (rewrite spec_cov_length; lia).
    cbn [bind ret]. rewrite portfolioReturn_closed.
    now rewrite length_map, length_seq.
  - intros k Hk. apply Hguard; lia.
  - intros k Hk. apply Hno; lia.
  - exact Hend.
Qed.

(** [quantumOptimization] returns a result once the guard fails: fuel
    beyond a pass at which it fails is enough. *)
Lemma quantumOptimization_ends (Math_exp : float -> float)
    (Math_pow : float -> float -> float) (this : QuantumPortfolioOptimizer)
    (passes fuel : nat) (assets : list Asset) (c : Constraints) :
  guardAtPass this passes = false ->
  (passes < fuel)%nat ->
  exists res : OptimizationResult,
    quantumOptimization Math_exp Math_pow this fuel assets c
    = Some (inr res).
Proof.
  intros Hguard Hfuel.
  pose proof (spec_cov_length Math_pow assets) as Hcov.
  destruct (optimizationLoop_ends Math_exp Math_pow this
              (map expectedReturn assets) (spec_cov Math_pow assets)
              (lowerBound c) (upperBound c) (length assets)
              (eq_ind_r (fun x => (length assets <= x)%nat) (le_n _) Hcov)
              passes fuel 0%nat [] Hguard Hfuel) as [loop Hloop].
  destruct (quantumOptimization Math_exp Math_pow this fuel assets c)
    as [out |] eqn:Hrun.
  - destruct (quantumOptimization_trace _ _ _ _ _ _ _ Hrun) as (m & -> & _).
    eauto.
  - rewrite quantumOptimization_loop in Hrun.
    change (spec_weightsAt Math_exp Math_pow (riskFreeRate this)
              (map expectedReturn assets) (spec_cov Math_pow assets)
              (lowerBound c) (upperBound c) (length assets) 0)
      with (weightsAtPass Math_exp Math_pow this assets c 0) in Hloop.
    rewrite Hloop in Hrun. destruct loop as [e | [w conv]]; discriminate Hrun.
Qed.

(** More fuel does not change what [optimizePortfolio] returns. *)
Lemma optimizePortfolio_more_fuel (Math_exp : float -> float)
    (Math_pow : float -> float -> float) (this : QuantumPortfolioOptimizer)
    (fuel fuel' : nat) (assets : list Asset) (c : Constraints)
    (out : result OptimizationResult) :
  optimizePortfolio Math_exp Math_pow this fuel assets c = Some out ->
  (fuel <= fuel')%nat ->
  optimizePortfolio Math_exp Math_pow this fuel' assets c = Some out.
Proof.
  unfold optimizePortfolio, quantumOptimization. intros Hrun Hle.
  destruct (length assets <? 2)%nat; [exact Hrun |].
  destruct (calculateCovarianceMatrix Math_pow assets) as [e | cov];
    [exact Hrun |].
  destruct (optimizationLoop Math_exp Math_pow this _ cov _ _ fuel _ _ _)
    as [loop |] eqn:Hloop; [| discriminate Hrun].
  now rewrite (optimizationLoop_more_fuel _ _ _ _ _ _ _ _ _ _ _ _ _ Hloop
                 Hle).
Qed.

(** What [optimizePortfolio] returns for two assets or more, when its loop
    is left. *)
Lemma optimizePortfolio_returns (Math_exp : float -> float)
    (Math_pow : float -> float -> float) (this : QuantumPortfolioOptimizer)
    (fuel : nat) (assets : list Asset) (c : Constraints)
    (res : OptimizationResult) :
  optimizePortfolio Math_exp Math_pow this fuel assets c = Some (inr res) ->
  exists m : nat,
    optimalWeights res = weightsAtPass Math_exp Math_pow this assets c m
    /\ or_expectedReturn res
       = spec_R (map expectedReturn assets) (optimalWeights res)
    /\ or_volatility res
       = spec_sigma (spec_cov Math_pow assets) (optimalWeights res)
    /\ or_sharpeRatio res = sharpeOf Math_pow this assets (optimalWeights res)
    /\ convergenceData res
       = map (fun k => sharpeOf Math_pow this assets
                         (weightsAtPass Math_exp Math_pow this assets c k))
             (seq 0 m)
    /\ iterations res = m
    /\ (forall k, (k < m)%nat -> guardAtPass this k = true)
    /\ (forall k, (S k < m)%nat ->
                  convergedAtPass Math_exp Math_pow this assets c k = false)
    /\ (guardAtPass this m = false
        \/ ((1 <= m)%nat
            /\ convergedAtPass Math_exp Math_pow this assets c (m - 1)
               = true)).
Proof.
  intro Hres. unfold optimizePortfolio in Hres.
  destruct (length assets <? 2)%nat; [discriminate Hres |].
  destruct (quantumOptimization_trace _ _ _ _ _ _ _ Hres)
    as (m & Hout & Hguard & Hno & Hend).
  injection Hout as ->. exists m.
  cbn [optimalWeights or_expectedReturn or_volatility or_sharpeRatio
       convergenceData iterations].
  repeat (split; [first [reflexivity | assumption] |]). exact Hend.
Qed.

Lemma weightsAtPass_length (Math_exp : float -> float)
    (Math_pow : float -> float -> float) (this : QuantumPortfolioOptimizer)
    (assets : list Asset) (c : Constraints) (k : nat) :
  length (weightsAtPass Math_exp Math_pow this assets c k) = length assets.
Proof. unfold weightsAtPass. apply spec_weightsAt_length. Qed.

Lemma passesAllowed_spec (opt : QuantumPortfolioOptimizer) (passes : nat) :
  passesAllowed opt passes = true ->
  (forall k, (k < passes)%nat -> guardAtPass opt k = true)
  /\ guardAtPass opt passes = false.
Proof.
  unfold passesAllowed. intro H. apply andb_true_iff in H.
  destruct H as [Hall Hlast]. split.
  - intros k Hk. rewrite forallb_forall in Hall. apply Hall.
    apply in_seq. lia.
  - now apply negb_true_iff.
Qed.

(** The passes run when the loop is left by the guard are those the guard
    allows. *)
Lemma passes_run_are_allowed (opt : QuantumPortfolioOptimizer)
    (passes m : nat) :
  passesAllowed opt passes = true ->
  guardAtPass opt m = false ->
  (forall k, (k < m)%nat -> guardAtPass opt k = true) ->
  m = passes.
Proof.
  intros Hallowed Hm Hbelow.
  destruct (passesAllowed_spec opt passes Hallowed) as [Hall Hlast].
  destruct (Nat.lt_total m passes) as [Hlt | [E | Hgt]]; [| exact E |].
  - rewrite (Hall m Hlt) in Hm. discriminate Hm.
  - rewrite (Hbelow passes Hgt) in Hlast. discriminate Hlast.
Qed.

(** C3.  [optimizePortfolio] fails with [InvalidInput] exactly when fewer
    than two assets are supplied: with none or one the result is that error,
    at once (no fuel is needed: the loop is not entered), whatever the
    constraints, the optimizer's parameters and the host functions.  From two
    assets on the call throws nothing at all, and it returns an
    [OptimizationResult] as soon as its loop is left, which fuel beyond a
    pass at which the guard fails ensures. *)
Theorem optimizePortfolio_invalid_input_iff :
  forall (Math_exp : float -> float) (Math_pow : float -> float -> float)
         (this : QuantumPortfolioOptimizer) (fuel : nat)
         (assets : list Asset) (c : Constraints),
    (optimizePortfolio Math_exp Math_pow this fuel assets c
     = Some (inl InvalidInput)
     <-> (length assets < 2)%nat)
    /\ ((length assets < 2)%nat ->
        optimizePortfolio Math_exp Math_pow this 0 assets c
        = Some (inl InvalidInput))
    /\ ((2 <= length assets)%nat ->
        (forall e : exn,
            optimizePortfolio Math_exp Math_pow this fuel assets c
            <> Some (inl e))
        /\ (forall passes : nat,
               guardAtPass this passes = false ->
               (passes < fuel)%nat ->
               exists res : OptimizationResult,
                 optimizePortfolio Math_exp Math_pow this fuel assets c
                 = Some (inr res)))
    /\ ((exists res : OptimizationResult,
            optimizePortfolio Math_exp Math_pow this fuel assets c
            = Some (inr res))
        -> (2 <= length assets)%nat).
Proof.
  intros Math_exp Math_pow this fuel assets c. unfold optimizePortfolio.
  assert (Hnoexn : forall e : exn,
             quantumOptimization Math_exp Math_pow this fuel assets c
             <> Some (inl e)).
  { intros e H.
    destruct (quantumOptimization_trace _ _ _ _ _ _ _ H)
      as (m & Hout & _).
    discriminate Hout. }
  destruct (Nat.ltb_spec (length assets) 2) as [Hlt | Hge].
  - split; [split; intro; [exact Hlt | reflexivity] |].
    split; [reflexivity |]. split; [lia |].
    intros [res H]. discriminate H.
  - split; [split; intro H; [now apply Hnoexn in H | lia] |].
    split; [lia |]. split; [| intros _; exact Hge].
    intros _. split; [exact Hnoexn |].
    intros passes Hguard Hfuel.
    now apply (quantumOptimization_ends Math_exp Math_pow this passes).
Qed.

(** C4.  In every [OptimizationResult] returned by [optimizePortfolio],
    [convergenceData] has [iterations] entries.  [iterations] is at most
    [maxIterations] when that is a count [N], the number the loop counter
    holds after [N] increments; whatever number is stored, [iterations] is
    at most any number of increments after which the guard
    [iteration < this.maxIterations] fails, and the counter of every pass run
    was below [maxIterations].  Entry [k] is the Sharpe ratio, the negated
    value of [objectiveFunction], of the weights at the start of pass [k],
    in pass order; and when the loop is left while the guard still holds,
    the pass whose convergence test succeeded is the last one recorded, and
    the first whose test succeeded. *)
Theorem convergence_trace_recorded :
  forall (Math_exp : float -> float) (Math_pow : float -> float -> float)
         (this : QuantumPortfolioOptimizer) (fuel : nat)
         (assets : list Asset) (c : Constraints) (res : OptimizationResult),
    optimizePortfolio Math_exp Math_pow this fuel assets c = Some (inr res) ->
    length (convergenceData res) = iterations res
    /\ (forall N : nat,
          maxIterations this = iterationNumber N ->
          (iterations res <= N)%nat)
    /\ (forall N : nat,
          guardAtPass this N = false -> (iterations res <= N)%nat)
    /\ (forall k, (k < iterations res)%nat ->
          (iterationNumber k <? maxIterations this) = true)
    /\ (forall k, (k < iterations res)%nat ->
          exists objective,
            objectiveFunction this
              (weightsAtPass Math_exp Math_pow this assets c k)
              (map expectedReturn assets) (spec_cov Math_pow assets)
            = inr objective
            /\ nth_error (convergenceData res) k = Some (- objective)
            /\ - objective
               = sharpeOf Math_pow this assets
                   (weightsAtPass Math_exp Math_pow this assets c k))
    /\ (forall k, (S k < iterations res)%nat ->
          convergedAtPass Math_exp Math_pow this assets c k = false)
    /\ (guardAtPass this (iterations res) = true ->
        (1 <= iterations res)%nat
        /\ convergedAtPass Math_exp Math_pow this assets c
             (iterations res - 1) = true).
Proof.
  intros Math_exp Math_pow this fuel assets c res Hres.
  destruct (optimizePortfolio_returns _ _ _ _ _ _ _ Hres)
    as (m & _ & _ & _ & _ & Hconv & Hit & Hguard & Hno & Hend).
  rewrite Hit, Hconv.
  assert (Hbound : forall N, guardAtPass this N = false -> (m <= N)%nat).
  { intros N HN. destruct (Nat.le_gt_cases m N) as [Hle | Hgt];
      [exact Hle |].
    rewrite (Hguard N Hgt) in HN. discriminate HN. }
  split; [now rewrite length_map, length_seq |].
  split; [| split; [exact Hbound | split; [exact Hguard |]]].
  - intros N HN. apply Hbound. unfold guardAtPass. rewrite HN.
    apply ltb_irrefl.
  - split; [| split; [exact Hno |]].
    + intros k Hk. eexists. split; [| split].
      * apply objectiveFunction_closed.
        rewrite weightsAtPass_length, spec_cov_length. lia.
      * rewrite opp_spec_objective.
        apply (map_nth_error
                 (fun k' => sharpeOf Math_pow this assets
                              (weightsAtPass Math_exp Math_pow this assets c
                                 k'))
                 k (seq 0 m)).
        now apply nth_error_seq0.
      * now rewrite opp_spec_objective.
    + intro Hg. destruct Hend as [Hend | Hend]; [| exact Hend].
      rewrite Hend in Hg. discriminate Hg.
Qed.

(** A bound that is no count: with [maxIterations = 2.5] the guard allows
    three passes, and an asset of unknown return, on which the test never
    succeeds, makes the loop run them all. *)
Lemma fractional_bound_allows_three_passes :
  exists res : OptimizationResult,
    optimizePortfolio exp_ref pow_ref (constructor None (Some 2.5)) 4
      [AAPL; unknown_return] no_constraints = Some (inr res)
    /\ maxIterations (constructor None (Some 2.5)) = 2.5
    /\ iterations res = 3%nat.
Proof.
  eexists. split; [vm_compute; reflexivity |].
  split; reflexivity.
Qed.

(** C5.  Each pass of the loop performs exactly the update of the
    specification.  On weights [w], one per asset, the loop body records the
    Sharpe ratio of [w], computes [learningRate = 0.01 * Math.exp(-iteration
    / 50)] from the loop counter, clips every [w_i - learningRate * g_i],
    with [g] the result of [calculateGradients], to the bounds in force,
    divides the clipped candidates by their sum, with no clip after the
    division, and tests the two objectives against the tolerance.  The
    weights start uniform at [1/n]; the passes run are those the guard
    allows up to the first whose test succeeds; and the weights returned are
    those the last pass run leaves. *)
Theorem optimizer_pass_update :
  forall (Math_exp : float -> float) (Math_pow : float -> float -> float)
         (this : QuantumPortfolioOptimizer) (fuel : nat)
         (assets : list Asset) (c : Constraints) (res : OptimizationResult),
    optimizePortfolio Math_exp Math_pow this fuel assets c = Some (inr res) ->
    let n := length assets in
    let returns := map expectedReturn assets in
    let cov := spec_cov Math_pow assets in
    let W := weightsAtPass Math_exp Math_pow this assets c in
    let step (iteration : float) (w g : list float) : list float :=
      let learningRate := 0.01 * Math_exp (- iteration / 50) in
      let candidate :=
        map (fun i =>
               Math_max (lowerBound c)
                 (Math_min (upperBound c)
                    (arr_get w i - learningRate * arr_get g i)))
            (seq 0 n) in
      map (fun x => x / sum_list candidate) candidate in
    (forall (iteration : float) (w conv : list float),
        length w = n ->
        exists (g : list float) (before after : float),
          calculateGradients Math_pow this w returns cov = inr g
          /\ objectiveFunction this w returns cov = inr before
          /\ objectiveFunction this (step iteration w g) returns cov
             = inr after
          /\ loopBody Math_exp Math_pow this returns cov (lowerBound c)
               (upperBound c) iteration w conv
             = inr (Math_abs (after - before) <? tolerance this,
                    (step iteration w g, conv ++ [- before])))
    /\ W 0%nat = repeat (1 / of_nat n) n
    /\ (forall k : nat,
          exists g : list float,
            calculateGradients Math_pow this (W k) returns cov = inr g
            /\ W (S k) = step (iterationNumber k) (W k) g)
    /\ (forall k : nat, (k < iterations res)%nat ->
          guardAtPass this k = true)
    /\ (forall k : nat, (S k < iterations res)%nat ->
          convergedAtPass Math_exp Math_pow this assets c k = false)
    /\ (guardAtPass this (iterations res) = false
        \/ ((1 <= iterations res)%nat
            /\ convergedAtPass Math_exp Math_pow this assets c
                 (iterations res - 1) = true))
    /\ optimalWeights res = W (iterations res).
Proof.
  intros Math_exp Math_pow this fuel assets c res Hres n returns cov W step.
  assert (Hstep : forall iteration w,
             length w = n ->
             step iteration w (gradientOf Math_pow this assets w)
             = spec_step Math_exp Math_pow (riskFreeRate this) returns cov
                 (lowerBound c) (upperBound c) iteration w).
  { intros iteration w Hw. unfold step, spec_step, spec_candidates,
      spec_clip, spec_learningRate, gradientOf. now rewrite Hw. }
  split; [| split; [reflexivity | split]].
  - intros iteration w conv Hw.
    exists (gradientOf Math_pow this assets w),
      (spec_objective (riskFreeRate this) returns cov w),
      (spec_objective (riskFreeRate this) returns cov
         (step iteration w (gradientOf Math_pow this assets w))).
    assert (Hcov : (length w <= length cov)%nat)
      by (unfold cov; rewrite spec_cov_length; lia).
    split; [now apply calculateGradients_closed |].
    split; [now apply objectiveFunction_closed |].
    rewrite Hstep by exact Hw. split.
    + apply objectiveFunction_closed.
      rewrite spec_step_length. exact Hcov.
    + rewrite (loopBody_pass Math_exp Math_pow this returns cov
                 (lowerBound c) (upperBound c) n) by (exact Hw || lia).
      cbv zeta. unfold ret. now rewrite opp_spec_objective.
  - intro k. exists (gradientOf Math_pow this assets (W k)). split.
    + apply calculateGradients_closed. unfold W, cov.
      rewrite weightsAtPass_length, spec_cov_length. lia.
    + rewrite Hstep by apply weightsAtPass_length. reflexivity.
  - destruct (optimizePortfolio_returns _ _ _ _ _ _ _ Hres)
      as (m & Hw & _ & _ & _ & _ & Hit & Hguard & Hno & Hend).
    rewrite Hit. repeat (split; [assumption |]). exact Hw.
Qed.

(** C8.  The result of [optimizePortfolio] is a function of the expected
    returns and volatilities of the assets, the constraints, and the
    optimizer: asset lists that agree element by element on [expectedReturn]
    and [volatility] give identical results, whatever their symbols, names
    and prices. *)
Theorem optimizePortfolio_ignores_symbol_name_price :
  forall (Math_exp : float -> float) (Math_pow : float -> float -> float)
         (this : QuantumPortfolioOptimizer) (fuel : nat)
         (assets1 assets2 : list Asset) (c : Constraints),
    map expectedReturn assets1 = map expectedReturn assets2 ->
    map volatility assets1 = map volatility assets2 ->
    optimizePortfolio Math_exp Math_pow this fuel assets1 c
    = optimizePortfolio Math_exp Math_pow this fuel assets2 c.
Proof.
  intros Math_exp Math_pow this fuel assets1 assets2 c Hret Hvol.
  assert (Hlen : length assets1 = length assets2).
  { rewrite <- (length_map expectedReturn assets1), Hret.
    apply length_map. }
  unfold optimizePortfolio, quantumOptimization.
  rewrite !calculateCovarianceMatrix_closed.
  unfold spec_cov. now rewrite Hret, Hvol, Hlen.
Qed.

(** C10.  Defaulting tests truthiness: a [maxWeight] of [0] (or [-0]) acts as
    [1] and a [minWeight] of [0] as an absent one, that is [0]; a
    [riskFreeRate] of [0] given to the constructor leaves [0.02] and a
    [maxIterations] of [0] leaves [100]. *)
Theorem zero_arguments_take_defaults :
  forall (Math_exp : float -> float) (Math_pow : float -> float -> float)
         (this : QuantumPortfolioOptimizer) (fuel : nat)
         (assets : list Asset)
         (lo hi : option float) (rate maxIter : option float),
    optimizePortfolio Math_exp Math_pow this fuel assets
      {| minWeight := lo; maxWeight := Some 0 |}
    = optimizePortfolio Math_exp Math_pow this fuel assets
        {| minWeight := lo; maxWeight := Some 1 |}
    /\ optimizePortfolio Math_exp Math_pow this fuel assets
         {| minWeight := lo; maxWeight := Some (-0) |}
       = optimizePortfolio Math_exp Math_pow this fuel assets
           {| minWeight := lo; maxWeight := Some 1 |}
    /\ optimizePortfolio Math_exp Math_pow this fuel assets
         {| minWeight := Some 0; maxWeight := hi |}
       = optimizePortfolio Math_exp Math_pow this fuel assets
           {| minWeight := None; maxWeight := hi |}
    /\ upperBound {| minWeight := lo; maxWeight := Some 0 |} = 1
    /\ lowerBound {| minWeight := Some 0; maxWeight := hi |} = 0
    /\ riskFreeRate (constructor (Some 0) maxIter) = 0.02
    /\ maxIterations (constructor rate (Some 0)) = 100.
Proof.
  intros. repeat split; reflexivity.
Qed.

Lemma arr_get_tabulate (f : nat -> float) (n i : nat) :
  (i < n)%nat -> arr_get (map f (seq 0 n)) i = f i.
Proof.
  intro H. unfold arr_get. apply nth_error_nth.
  apply (map_nth_error f i (seq 0 n)). now apply nth_error_seq0.
Qed.

(** C6.  On a weight vector [w] that the covariance matrix covers, the
    objective function returns [-S(w) = -(R(w) - riskFreeRate) / sigma(w)],
    and component [i] of the gradient is
    [-(r_i * sigma - (R - riskFreeRate) * dsigma_i) / sigma^2] with
    [dsigma_i = (sum_j 2 * w_j * cov[i][j]) / (2 * sigma)], where [sigma^2]
    is [Math.pow(sigma, 2)].  The equations hold as binary64 values, also
    when [sigma] is zero. *)
Theorem objective_and_gradient_formulas :
  forall (Math_pow : float -> float -> float)
         (this : QuantumPortfolioOptimizer) (w r : list float) (cov : matrix),
    (length w <= length cov)%nat ->
    let rf := riskFreeRate this in
    let R := spec_R r w in
    let sigma := spec_sigma cov w in
    objectiveFunction this w r cov = inr (- ((R - rf) / sigma))
    /\ exists g : list float,
         calculateGradients Math_pow this w r cov = inr g
         /\ length g = length w
         /\ forall i : nat, (i < length w)%nat ->
              let dV := sum_upto (length w)
                          (fun j => 2 * arr_get w j * entry cov i j) in
              let dsigma := dV / (2 * sigma) in
              arr_get g i
              = - ((arr_get r i * sigma - (R - rf) * dsigma)
                   / Math_pow sigma 2).
Proof.
  intros Math_pow this w r cov Hdim rf R sigma. split.
  - now rewrite objectiveFunction_closed.
  - exists (spec_gradient Math_pow rf r cov w). split; [| split].
    + now apply calculateGradients_closed.
    + unfold spec_gradient. now rewrite length_map, length_seq.
    + intros i Hi. unfold spec_gradient.
      now rewrite arr_get_tabulate.
Qed.

(** ** The metrics calculator *)

(** A loop whose body throws in pass [start + pre] and not before throws. *)
Lemma for_from_throws {St : Type} (body : nat -> St -> result St)
    (step : nat -> St -> St) (e : exn) :
  forall (pre count start : nat) (s : St),
    (pre < count)%nat ->
    (forall k s', (start <= k < start + pre)%nat ->
                  body k s' = ret (step k s')) ->
    (forall s', body (start + pre)%nat s' = inl e) ->
    for_from start count body s = inl e.
Proof.
  induction pre as [|p IH]; intros count start s Hlt Hok Hthrow;
    (destruct count as [|c]; [lia |]); cbn [for_from].
  - rewrite Nat.add_0_r in Hthrow. now rewrite Hthrow.
  - rewrite Hok by lia. cbn [bind ret].
    apply IH; [lia | |].
    + intros k s' Hk. apply Hok. lia.
    + intro s'. replace (S start + p)%nat with (start + S p)%nat by lia.
      apply Hthrow.
Qed.

Lemma portfolioVariance_throws (w : list float) (cov : matrix) :
  (length cov < length w)%nat ->
  portfolioVariance w cov = inl TypeError.
Proof.
  intro Hdim. unfold portfolioVariance, for_loop.
  set (n := length w).
  apply (for_from_throws _
           (fun i pv =>
              fold_left
                (fun pv' j => pv' + arr_get w i * arr_get w j * entry cov i j)
                (seq 0 n) pv)
           TypeError (length cov)).
  - exact Hdim.
  - intros i pv Hi.
    apply (for_from_pure _
             (fun j pv' => pv' + arr_get w i * arr_get w j * entry cov i j)).
    intros j pv' Hj. now rewrite mat_get_entry by lia.
  - intro pv. cbn [Nat.add].
    apply (for_from_throws _ (fun _ pv' => pv') TypeError 0).
    + fold n. lia.
    + intros; lia.
    + intro pv'. now rewrite mat_get_throws by lia.
Qed.

(** What [calculatePortfolioMetrics] returns, for every argument: the three
    quantities of the specification when the covariance matrix has a row for
    every weight, and a [TypeError], thrown by the read of [covMatrix[i][j]]
    on a missing row, when there are more weights than assets. *)
Lemma calculatePortfolioMetrics_closed (Math_pow : float -> float -> float)
    (this : QuantumPortfolioOptimizer) (assets : list Asset)
    (weights : list float) :
  calculatePortfolioMetrics Math_pow this assets weights
  = if (length weights <=? length assets)%nat
    then inr {| pm_expectedReturn :=
                  spec_R (map expectedReturn assets) weights;
                pm_volatility :=
                  spec_sigma (spec_cov Math_pow assets) weights;
                pm_sharpeRatio := sharpeOf Math_pow this assets weights |}
    else inl TypeError.
Proof.
  unfold calculatePortfolioMetrics.
  rewrite calculateCovarianceMatrix_closed. cbn [bind ret].
  destruct (Nat.leb_spec (length weights) (length assets)) as [Hle | Hgt].
  - rewrite portfolioVariance_closed by (now rewrite spec_cov_length).
    cbn [bind ret]. now rewrite portfolioReturn_closed.
  - now rewrite portfolioVariance_throws by (now rewrite spec_cov_length).
Qed.

(** C9.  [calculatePortfolioMetrics] is a pure reporting function.  On a
    weight vector with one weight per asset it returns a triple, whatever the
    values of the weights, which need not sum to [1] nor respect any bound:
    the triple is [R(w)], [sigma(w)] and [S(w)], a function of the
    risk-free rate, the expected returns and volatilities of the assets and
    the weights alone.  So two calls with the same arguments give the same
    triple, bit for bit, also on two optimizers that differ in anything but
    the risk-free rate. *)
Theorem metrics_of_any_weights :
  forall (Math_pow : float -> float -> float)
         (this : QuantumPortfolioOptimizer) (assets : list Asset)
         (weights : list float),
    length weights = length assets ->
    calculatePortfolioMetrics Math_pow this assets weights
    = inr {| pm_expectedReturn :=
               spec_R (map expectedReturn assets) weights;
             pm_volatility :=
               spec_sigma (spec_cov Math_pow assets) weights;
             pm_sharpeRatio :=
               (spec_R (map expectedReturn assets) weights
                - riskFreeRate this)
               / spec_sigma (spec_cov Math_pow assets) weights |}
    /\ (forall other : QuantumPortfolioOptimizer,
          riskFreeRate other = riskFreeRate this ->
          calculatePortfolioMetrics Math_pow other assets weights
          = calculatePortfolioMetrics Math_pow this assets weights)
    /\ (forall others : list Asset,
          map expectedReturn others = map expectedReturn assets ->
          map volatility others = map volatility assets ->
          calculatePortfolioMetrics Math_pow this others weights
          = calculatePortfolioMetrics Math_pow this assets weights).
Proof.
  intros Math_pow this assets weights Hlen.
  split; [| split].
  - rewrite calculatePortfolioMetrics_closed.
    destruct (Nat.leb_spec (length weights) (length assets)); [| lia].
    reflexivity.
  - intros other Hrate. rewrite !calculatePortfolioMetrics_closed.
    unfold sharpeOf. now rewrite Hrate.
  - intros others Hret Hvol.
    assert (Hothers : length others = length assets).
    { rewrite <- (length_map expectedReturn others), Hret.
      apply length_map. }
    rewrite !calculatePortfolioMetrics_closed.
    unfold sharpeOf, spec_cov. now rewrite Hret, Hvol, Hothers.
Qed.

(** ** The box constraint and the renormalization *)



(** ** Zero volatility *)

Lemma is_zero_spec (d : float) :
  is_zero d = true -> exists s, Prim2SF d = S754_zero s.
Proof.
  unfold is_zero. rewrite FloatAxioms.eqb_spec.
  change (Prim2SF zero) with (S754_zero false). unfold SFeqb.
  destruct (Prim2SF d) as [s|s| |s m e]; cbn; intro H; try discriminate.
  - now exists s.
  - destruct s; discriminate.
  - destruct s; discriminate.
Qed.

Lemma not_finite_cases (y : float) :
  Prim2SF y = S754_nan \/ (exists s, Prim2SF y = S754_infinity s) ->
  is_finite y = false.
Proof.
  intros [H | [s H]].
  - assert (y = nan) as -> by (apply Prim2SF_inj; exact H). reflexivity.
  - destruct s.
    + assert (y = neg_infinity) as -> by (apply Prim2SF_inj; exact H).
      reflexivity.
    + assert (y = infinity) as -> by (apply Prim2SF_inj; exact H).
      reflexivity.
Qed.

Lemma div_by_zero_not_finite (x d : float) :
  is_zero d = true ->
  is_finite (x / d) = false /\ is_finite (- (x / d)) = false.
Proof.
  intro Hd. destruct (is_zero_spec d Hd) as [s Hs].
  assert (H : Prim2SF (x / d) = S754_nan
              \/ exists s', Prim2SF (x / d) = S754_infinity s').
  { rewrite div_spec, Hs. unfold SF64div, SFdiv.
    destruct (Prim2SF x); eauto. }
  split; apply not_finite_cases.
  - exact H.
  - rewrite opp_spec. destruct H as [-> | [s' ->]]; cbn; eauto.
Qed.

Lemma Math_min_nan_r (a : float) : Math_min a nan = nan.
Proof.
  unfold Math_min. change (is_nan nan) with true. now rewrite orb_true_r.
Qed.

Lemma Math_max_nan_r (a : float) : Math_max a nan = nan.
Proof.
  unfold Math_max. change (is_nan nan) with true. now rewrite orb_true_r.
Qed.

Ltac nan_propagate :=
  repeat (rewrite ?mul_nan_r, ?mul_nan_l, ?add_nan_r, ?add_nan_l,
            ?sub_nan_r, ?sub_nan_l, ?div_nan_r, ?div_nan_l,
            ?Math_min_nan_r, ?Math_max_nan_r;
          change (- nan) with nan).

Section Degenerate.

Variable Math_exp : float -> float.
Variable Math_pow : float -> float -> float.
Variable this : QuantumPortfolioOptimizer.
Variable a b : Asset.
Variable c : Constraints.
Hypothesis pow_zero : Math_pow 0 2 = 0.
Hypothesis vol_a : volatility a = 0.
Hypothesis vol_b : volatility b = 0.

Lemma degenerate_cov : spec_cov Math_pow [a; b] = [[0; 0]; [0; 0]].
Proof.
  unfold spec_cov, spec_cov_entry.
  cbn [length map seq nth Nat.eqb]. rewrite vol_a, vol_b, pow_zero.
  reflexivity.
Qed.

Lemma degenerate_gradient_uniform :
  gradientOf Math_pow this [a; b] [0.5; 0.5] = [nan; nan].
Proof.
  unfold gradientOf. rewrite degenerate_cov.
  cbv - [expectedReturn riskFreeRate]. rewrite pow_zero.
  now nan_propagate.
Qed.

Lemma degenerate_gradient_nan :
  gradientOf Math_pow this [a; b] [nan; nan] = [nan; nan].
Proof.
  unfold gradientOf. rewrite degenerate_cov.
  cbv - [expectedReturn riskFreeRate].
  now nan_propagate.
Qed.

Lemma degenerate_step (iteration : float) (w : list float) :
  length w = 2%nat ->
  gradientOf Math_pow this [a; b] w = [nan; nan] ->
  spec_step Math_exp Math_pow (riskFreeRate this)
    (map expectedReturn [a; b]) (spec_cov Math_pow [a; b])
    (lowerBound c) (upperBound c) iteration w = [nan; nan].
Proof.
  intros Hlen Hg. unfold spec_step, spec_candidates.
  unfold gradientOf in Hg. rewrite Hg, Hlen.
  cbn [seq map]. unfold spec_clip.
  change (arr_get [nan; nan] 0) with nan.
  change (arr_get [nan; nan] 1) with nan.
  now nan_propagate.
Qed.

Lemma degenerate_weights (k : nat) :
  weightsAtPass Math_exp Math_pow this [a; b] c (S k) = [nan; nan].
Proof.
  unfold weightsAtPass.
  induction k as [|k IH]; cbn [spec_weightsAt] in *.
  - apply degenerate_step; [reflexivity |].
    apply degenerate_gradient_uniform.
  - rewrite IH. apply degenerate_step; [reflexivity |].
    apply degenerate_gradient_nan.
Qed.

Lemma degenerate_sharpe_nan :
  sharpeOf Math_pow this [a; b] [nan; nan] = nan.
Proof.
  unfold sharpeOf. rewrite degenerate_cov.
  cbv - [expectedReturn riskFreeRate]. now nan_propagate.
Qed.

Lemma degenerate_never_converges (k : nat) :
  convergedAtPass Math_exp Math_pow this [a; b] c k = false.
Proof.
  unfold convergedAtPass, spec_converged.
  change (spec_weightsAt Math_exp Math_pow (riskFreeRate this)
            (map expectedReturn [a; b]) (spec_cov Math_pow [a; b])
            (lowerBound c) (upperBound c) (length [a; b]))
    with (weightsAtPass Math_exp Math_pow this [a; b] c).
  rewrite degenerate_weights.
  unfold spec_objective.
  change (spec_S (riskFreeRate this) (map expectedReturn [a; b])
            (spec_cov Math_pow [a; b]) [nan; nan])
    with (sharpeOf Math_pow this [a; b] [nan; nan]).
  rewrite degenerate_sharpe_nan. unfold Math_abs.
  nan_propagate. change (abs nan) with nan. apply ltb_nan_l.
Qed.

Lemma degenerate_sigma_uniform :
  spec_sigma (spec_cov Math_pow [a; b]) [0.5; 0.5] = 0.
Proof. rewrite degenerate_cov. reflexivity. Qed.

(** A result on two assets of volatility [0]: the loop was left by the
    guard, after as many passes as the guard allows. *)
Lemma degenerate_result (fuel : nat) (res : OptimizationResult) :
  optimizePortfolio Math_exp Math_pow this fuel [a; b] c = Some (inr res) ->
  guardAtPass this (iterations res) = false
  /\ (forall k, (k < iterations res)%nat -> guardAtPass this k = true)
  /\ is_finite (or_sharpeRatio res) = false
  /\ ((1 <= iterations res)%nat -> optimalWeights res = [nan; nan]).
Proof.
  intro Hres.
  destruct (optimizePortfolio_returns _ _ _ _ _ _ _ Hres)
    as (m & Hw & _ & _ & Hs & _ & Hit & Hguard & _ & Hend).
  rewrite Hit, Hs, Hw. split; [| split; [exact Hguard | split]].
  - destruct Hend as [Hend | [_ Hconv]]; [exact Hend |].
    rewrite degenerate_never_converges in Hconv. discriminate Hconv.
  - destruct m as [|k].
    + unfold sharpeOf, spec_S.
      change (weightsAtPass Math_exp Math_pow this [a; b] c 0)
        with [0.5; 0.5].
      apply div_by_zero_not_finite.
      now rewrite degenerate_sigma_uniform.
    + now rewrite degenerate_weights, degenerate_sharpe_nan.
  - intro Hpos. destruct m as [|k]; [lia |]. apply degenerate_weights.
Qed.

Lemma degenerate_run (passes fuel : nat) :
  passesAllowed this passes = true ->
  (passes < fuel)%nat ->
  exists res : OptimizationResult,
    optimizePortfolio Math_exp Math_pow this fuel [a; b] c = Some (inr res)
    /\ iterations res = passes
    /\ is_finite (or_sharpeRatio res) = false
    /\ ((1 <= passes)%nat -> optimalWeights res = [nan; nan]).
Proof.
  intros Hallowed Hfuel.
  destruct (passesAllowed_spec this passes Hallowed) as [_ Hlast].
  destruct (quantumOptimization_ends Math_exp Math_pow this passes fuel
              [a; b] c Hlast Hfuel) as [res Hres].
  assert (Hrun : optimizePortfolio Math_exp Math_pow this fuel [a; b] c
                 = Some (inr res)) by exact Hres.
  destruct (degenerate_result fuel res Hrun) as (Hg & Hbelow & Hs & Hw).
  assert (Hit : iterations res = passes)
    by now apply (passes_run_are_allowed this).
  exists res. rewrite <- Hit. auto.
Qed.

End Degenerate.

(** C1 (as amended).  No computation of the class signals a zero portfolio
    volatility.  When [sigma(w)] evaluates to zero, [objectiveFunction] and
    [calculatePortfolioMetrics] return the quotient [(R - riskFreeRate) / 0],
    an infinity or [NaN], and [calculateGradients] returns a vector as well.
    On two assets of volatility [0], [optimizePortfolio] returns an
    [OptimizationResult]: the convergence test never succeeds, all the
    passes that the guard [iteration < this.maxIterations] allows run, and
    with fuel for them the result is returned; the reported Sharpe ratio is
    not finite and, once a pass has run, both weights are [NaN]. *)
Theorem zero_volatility_is_not_signalled :
  forall (Math_exp : float -> float) (Math_pow : float -> float -> float)
         (this : QuantumPortfolioOptimizer),
    (forall (w r : list float) (cov : matrix),
        (length w <= length cov)%nat ->
        is_zero (spec_sigma cov w) = true ->
        exists objective : float,
          objectiveFunction this w r cov = inr objective
          /\ is_finite objective = false)
    /\ (forall (w r : list float) (cov : matrix),
          (length w <= length cov)%nat ->
          exists g : list float,
            calculateGradients Math_pow this w r cov = inr g)
    /\ (forall (assets : list Asset) (w : list float),
          (length w <= length assets)%nat ->
          is_zero (spec_sigma (spec_cov Math_pow assets) w) = true ->
          exists metrics : PortfolioMetrics,
            calculatePortfolioMetrics Math_pow this assets w = inr metrics
            /\ is_finite (pm_sharpeRatio metrics) = false)
    /\ (Math_pow 0 2 = 0 ->
        forall (a b : Asset) (c : Constraints),
          volatility a = 0 -> volatility b = 0 ->
          (forall (fuel : nat) (res : OptimizationResult),
              optimizePortfolio Math_exp Math_pow this fuel [a; b] c
              = Some (inr res) ->
              guardAtPass this (iterations res) = false
              /\ (forall k, (k < iterations res)%nat ->
                            guardAtPass this k = true)
              /\ is_finite (or_sharpeRatio res) = false
              /\ ((1 <= iterations res)%nat ->
                  optimalWeights res = [nan; nan]))
          /\ (forall passes fuel : nat,
                 passesAllowed this passes = true ->
                 (passes < fuel)%nat ->
                 exists res : OptimizationResult,
                   optimizePortfolio Math_exp Math_pow this fuel [a; b] c
                   = Some (inr res)
                   /\ iterations res = passes
                   /\ is_finite (or_sharpeRatio res) = false
                   /\ ((1 <= passes)%nat ->
                       optimalWeights res = [nan; nan]))).
Proof.
  intros Math_exp Math_pow this. split; [| split; [| split]].
  - intros w r cov Hdim Hzero. eexists. split.
    + now apply objectiveFunction_closed.
    + unfold spec_objective, spec_S. now apply div_by_zero_not_finite.
  - intros w r cov Hdim. eexists. now apply calculateGradients_closed.
  - intros assets w Hdim Hzero. eexists. split.
    + unfold calculatePortfolioMetrics.
      rewrite calculateCovarianceMatrix_closed. cbn [bind ret].
      rewrite portfolioVariance_closed by (now rewrite spec_cov_length).
      cbn [bind ret]. rewrite portfolioReturn_closed. reflexivity.
    + cbn [pm_sharpeRatio]. unfold sharpeOf, spec_S.
      now apply div_by_zero_not_finite.
  - intros Hpow a b c Ha Hb. split.
    + intros fuel res. now apply degenerate_result.
    + intros passes fuel. now apply degenerate_run.
Qed.

(** C1, the counterexample.  Two assets of volatility [0] on a default
    optimizer: the first objective value is [-Infinity] and not an error, and
    [optimizePortfolio] returns a result, after all [100] passes, whose
    weights are [NaN]. *)
Lemma zero_volatility_returns_a_result :
  objectiveFunction default_optimizer [0.5; 0.5] [0.12; 0.08]
    [[0; 0]; [0; 0]] = inr neg_infinity
  /\ calculateCovarianceMatrix pow_ref [riskless_a; riskless_b]
     = inr [[0; 0]; [0; 0]]
  /\ exists res : OptimizationResult,
       optimizePortfolio exp_ref pow_ref default_optimizer 101
         [riskless_a; riskless_b] no_constraints = Some (inr res)
       /\ optimalWeights res = [nan; nan]
       /\ iterations res = 100%nat.
Proof.
  split; [vm_compute; reflexivity |].
  split; [vm_compute; reflexivity |].
  eexists. split; [vm_compute; reflexivity |].
  split; reflexivity.
Qed.

(** ** The theorems on the sample data *)

Lemma sample_run :
  optimizePortfolio exp_ref pow_ref default_optimizer 101 [AAPL; GOOGL]
    no_constraints = Some (inr sample_result).
Proof. vm_compute. reflexivity. Qed.


Lemma default_passes : passesAllowed default_optimizer 100 = true.
Proof. vm_compute. reflexivity. Qed.

Lemma convergence_trace_recorded_witness :
  optimizePortfolio exp_ref pow_ref default_optimizer 101 [AAPL; GOOGL]
    no_constraints = Some (inr sample_result)
  /\ maxIterations default_optimizer = iterationNumber 100
  /\ length (convergenceData sample_result) = iterations sample_result
  /\ (iterations sample_result <= 100)%nat.
Proof.
  split; [exact sample_run |]. split; [vm_compute; reflexivity |].
  destruct (convergence_trace_recorded exp_ref pow_ref default_optimizer
              101 [AAPL; GOOGL] no_constraints sample_result sample_run)
    as (Hlen & Hmax & _).
  split; [exact Hlen | apply Hmax; vm_compute; reflexivity].
Defined.

Lemma optimizer_pass_update_witness :
  optimizePortfolio exp_ref pow_ref default_optimizer 101 [AAPL; GOOGL]
    no_constraints = Some (inr sample_result)
  /\ guardAtPass default_optimizer 0 = true
  /\ (guardAtPass default_optimizer (iterations sample_result) = false
      \/ ((1 <= iterations sample_result)%nat
          /\ convergedAtPass exp_ref pow_ref default_optimizer
               [AAPL; GOOGL] no_constraints (iterations sample_result - 1)
             = true))
  /\ optimalWeights sample_result
     = weightsAtPass exp_ref pow_ref default_optimizer [AAPL; GOOGL]
         no_constraints (iterations sample_result).
Proof.
  split; [exact sample_run |]. split; [reflexivity |].
  destruct (optimizer_pass_update exp_ref pow_ref default_optimizer 101
              [AAPL; GOOGL] no_constraints sample_result sample_run)
    as (_ & _ & _ & _ & _ & Hend & Hw).
  split; [exact Hend | exact Hw].
Defined.


Lemma objective_and_gradient_formulas_witness :
  (length sample_weights <= length sample_cov)%nat
  /\ objectiveFunction default_optimizer sample_weights sample_returns
       sample_cov
     = inr (- ((spec_R sample_returns sample_weights
                - riskFreeRate default_optimizer)
               / spec_sigma sample_cov sample_weights)).
Proof.
  split; [cbn; lia |].
  refine (proj1 (objective_and_gradient_formulas pow_ref default_optimizer
                   sample_weights sample_returns sample_cov _)).
  cbn. lia.
Defined.

Lemma metrics_of_any_weights_witness :
  length [2; -7] = length [AAPL; GOOGL]
  /\ calculatePortfolioMetrics pow_ref default_optimizer [AAPL; GOOGL]
       [2; -7]
     = inr {| pm_expectedReturn :=
                spec_R (map expectedReturn [AAPL; GOOGL]) [2; -7];
              pm_volatility :=
                spec_sigma (spec_cov pow_ref [AAPL; GOOGL]) [2; -7];
              pm_sharpeRatio :=
                (spec_R (map expectedReturn [AAPL; GOOGL]) [2; -7]
                 - riskFreeRate default_optimizer)
                / spec_sigma (spec_cov pow_ref [AAPL; GOOGL]) [2; -7] |}.
Proof.
  split; [reflexivity |].
  exact (proj1 (metrics_of_any_weights pow_ref default_optimizer
                  [AAPL; GOOGL] [2; -7] eq_refl)).
Defined.

Lemma optimizePortfolio_ignores_symbol_name_price_witness :
  let apple := {| symbol := "X"; name := "renamed"; expectedReturn := 0.12;
                  volatility := 0.25; price := 1 |} in
  let google := {| symbol := "Y"; name := "renamed"; expectedReturn := 0.14;
                   volatility := 0.28; price := 2 |} in
  map expectedReturn [AAPL; GOOGL] = map expectedReturn [apple; google]
  /\ map volatility [AAPL; GOOGL] = map volatility [apple; google]
  /\ optimizePortfolio exp_ref pow_ref default_optimizer 101 [AAPL; GOOGL]
       capped
     = optimizePortfolio exp_ref pow_ref default_optimizer 101
         [apple; google] capped.
Proof.
  cbv zeta. split; [reflexivity |]. split; [reflexivity |].
  apply optimizePortfolio_ignores_symbol_name_price; reflexivity.
Defined.

Lemma zero_volatility_is_not_signalled_witness :
  pow_ref 0 2 = 0
  /\ volatility riskless_a = 0
  /\ volatility riskless_b = 0
  /\ passesAllowed default_optimizer 100 = true
  /\ exists res : OptimizationResult,
       optimizePortfolio exp_ref pow_ref default_optimizer 101
         [riskless_a; riskless_b] capped = Some (inr res)
       /\ iterations res = 100%nat.
Proof.
  do 3 (split; [reflexivity |]). split; [exact default_passes |].
  destruct (proj2 (proj2 (proj2 (proj2
              (zero_volatility_is_not_signalled exp_ref pow_ref
                 default_optimizer)))
              eq_refl riskless_a riskless_b capped eq_refl eq_refl)
              100%nat 101%nat default_passes (le_n 101))
    as (res & Hres & Hiter & _).
  exists res. split; [exact Hres | exact Hiter].
Defined.

(** ** The result and the metrics calculator *)

(** X1.  A result of [optimizePortfolio] has exactly one optimal weight per
    asset, whatever the constraints and the number of passes. *)
Theorem optimalWeights_aligned_with_assets :
  forall (Math_exp : float -> float) (Math_pow : float -> float -> float)
         (this : QuantumPortfolioOptimizer) (fuel : nat)
         (assets : list Asset) (c : Constraints) (res : OptimizationResult),
    optimizePortfolio Math_exp Math_pow this fuel assets c = Some (inr res) ->
    length (optimalWeights res) = length assets.
Proof.
  intros Math_exp Math_pow this fuel assets c res Hres.
  destruct (optimizePortfolio_returns _ _ _ _ _ _ _ Hres) as (m & -> & _).
  apply weightsAtPass_length.
Qed.

(** X2.  The expected return, volatility and Sharpe ratio that
    [optimizePortfolio] reports are those that [calculatePortfolioMetrics]
    computes for the same assets and the optimal weights of the result. *)
Theorem reported_metrics_are_metrics_of_optimalWeights :
  forall (Math_exp : float -> float) (Math_pow : float -> float -> float)
         (this : QuantumPortfolioOptimizer) (fuel : nat)
         (assets : list Asset) (c : Constraints) (res : OptimizationResult),
    optimizePortfolio Math_exp Math_pow this fuel assets c = Some (inr res) ->
    calculatePortfolioMetrics Math_pow this assets (optimalWeights res)
    = inr {| pm_expectedReturn := or_expectedReturn res;
             pm_volatility := or_volatility res;
             pm_sharpeRatio := or_sharpeRatio res |}.
Proof.
  intros Math_exp Math_pow this fuel assets c res Hres.
  destruct (optimizePortfolio_returns _ _ _ _ _ _ _ Hres)
    as (m & Hw & -> & -> & -> & _).
  assert (Hlen : length (optimalWeights res) = length assets)
    by (rewrite Hw; apply weightsAtPass_length).
  unfold calculatePortfolioMetrics.
  rewrite calculateCovarianceMatrix_closed. cbn [bind ret].
  rewrite portfolioVariance_closed by (rewrite spec_cov_length; lia).
  cbn [bind ret]. now rewrite portfolioReturn_closed.
Qed.

(** X3.  When [optimizePortfolio] returns after fewer than [maxIterations]
    passes, that is when the number of passes run is still below
    [maxIterations] as the guard of the loop compares them, the Sharpe ratio
    it reports differs from the last entry of the convergence trace by less
    than the tolerance: the distance between the two objectives, which are
    the negated ratios, is below [tolerance]. *)
Theorem early_stop_is_within_tolerance :
  forall (Math_exp : float -> float) (Math_pow : float -> float -> float)
         (this : QuantumPortfolioOptimizer) (fuel : nat)
         (assets : list Asset) (c : Constraints) (res : OptimizationResult),
    optimizePortfolio Math_exp Math_pow this fuel assets c = Some (inr res) ->
    (iterationNumber (iterations res) <? maxIterations this) = true ->
    exists last : float,
      nth_error (convergenceData res) (iterations res - 1) = Some last
      /\ (Math_abs (- or_sharpeRatio res - - last) <? tolerance this) = true.
Proof.
  intros Math_exp Math_pow this fuel assets c res Hres Hearly.
  destruct (optimizePortfolio_returns _ _ _ _ _ _ _ Hres)
    as (m & Hw & _ & _ & Hs & Hconv & Hit & _ & _ & Hend).
  rewrite Hit in *. destruct Hend as [Hend | [Hm Hc]].
  { unfold guardAtPass in Hend. rewrite Hend in Hearly.
    discriminate Hearly. }
  eexists. split.
  - rewrite Hconv.
    apply (map_nth_error
             (fun k => sharpeOf Math_pow this assets
                         (weightsAtPass Math_exp Math_pow this assets c k))
             (m - 1) (seq 0 m)).
    apply nth_error_seq0. lia.
  - rewrite Hs, Hw. unfold convergedAtPass, spec_converged in Hc.
    replace (S (m - 1)) with m in Hc by lia. exact Hc.
Qed.

(** X4.  An optimizer whose [maxIterations] is not positive runs no pass:
    with two assets or more and any fuel for the one evaluation of the
    guard, a result is returned, and every result has the uniform weights
    [1/n], an empty convergence trace and [iterations = 0]. *)
Theorem no_pass_returns_uniform_weights :
  forall (Math_exp : float -> float) (Math_pow : float -> float -> float)
         (this : QuantumPortfolioOptimizer) (fuel : nat)
         (assets : list Asset) (c : Constraints),
    (0 <? maxIterations this) = false ->
    (forall res : OptimizationResult,
        optimizePortfolio Math_exp Math_pow this fuel assets c
        = Some (inr res) ->
        optimalWeights res
        = repeat (1 / of_nat (length assets)) (length assets)
        /\ convergenceData res = []
        /\ iterations res = 0%nat)
    /\ ((2 <= length assets)%nat -> (1 <= fuel)%nat ->
        exists res : OptimizationResult,
          optimizePortfolio Math_exp Math_pow this fuel assets c
          = Some (inr res)).
Proof.
  intros Math_exp Math_pow this fuel assets c Hmax. split.
  - intros res Hres.
    destruct (optimizePortfolio_returns _ _ _ _ _ _ _ Hres)
      as (m & Hw & _ & _ & _ & Hconv & Hit & Hguard & _).
    assert (m = 0%nat) as ->.
    { destruct m as [|m]; [reflexivity |].
      assert (H0 : guardAtPass this 0 = true) by (apply Hguard; lia).
      unfold guardAtPass in H0. change (iterationNumber 0) with 0 in H0.
      rewrite H0 in Hmax. discriminate Hmax. }
    repeat split; assumption.
  - intros Hn Hfuel. unfold optimizePortfolio.
    destruct (Nat.ltb_spec (length assets) 2); [lia |].
    now apply (quantumOptimization_ends Math_exp Math_pow this 0).
Qed.

(** X5.  With a positive [maxIterations] a result has at least one
    iteration, and the first entry of its convergence trace is the Sharpe
    ratio that [calculatePortfolioMetrics] gives for the uniform weights
    [1/n]. *)
Theorem first_entry_is_sharpe_of_uniform_weights :
  forall (Math_exp : float -> float) (Math_pow : float -> float -> float)
         (this : QuantumPortfolioOptimizer) (fuel : nat)
         (assets : list Asset) (c : Constraints) (res : OptimizationResult),
    optimizePortfolio Math_exp Math_pow this fuel assets c = Some (inr res) ->
    (0 <? maxIterations this) = true ->
    (1 <= iterations res)%nat
    /\ exists metrics : PortfolioMetrics,
         calculatePortfolioMetrics Math_pow this assets
           (repeat (1 / of_nat (length assets)) (length assets))
         = inr metrics
         /\ nth_error (convergenceData res) 0 = Some (pm_sharpeRatio metrics).
Proof.
  intros Math_exp Math_pow this fuel assets c res Hres Hmax.
  destruct (optimizePortfolio_returns _ _ _ _ _ _ _ Hres)
    as (m & _ & _ & _ & _ & Hconv & Hit & _ & _ & Hend).
  assert (H1 : (1 <= m)%nat).
  { destruct Hend as [Hend | [Hm _]]; [| exact Hm].
    destruct m as [|m]; [| lia].
    unfold guardAtPass in Hend. change (iterationNumber 0) with 0 in Hend.
    rewrite Hend in Hmax. discriminate Hmax. }
  split; [lia |]. eexists. split.
  - unfold calculatePortfolioMetrics.
    rewrite calculateCovarianceMatrix_closed. cbn [bind ret].
    rewrite portfolioVariance_closed
      by (rewrite repeat_length, spec_cov_length; lia).
    cbn [bind ret]. rewrite portfolioReturn_closed. reflexivity.
  - rewrite Hconv. cbn [pm_sharpeRatio].
    destruct m as [|m']; [lia |]. reflexivity.
Qed.

(** ** Not-a-number inputs *)

Lemma fold_left_add_nan (l : list float) : fold_left add l nan = nan.
Proof.
  induction l as [|x t IH]; cbn; [reflexivity |].
  now rewrite add_nan_l.
Qed.

Lemma sum_list_nan (l : list float) : In nan l -> sum_list l = nan.
Proof.
  unfold sum_list. generalize 0.
  induction l as [|x t IH]; intros acc Hin; [destruct Hin |].
  cbn. destruct Hin as [-> | Hin].
  - rewrite add_nan_r. apply fold_left_add_nan.
  - now apply IH.
Qed.

Lemma sum_upto_nan (n i : nat) (f : nat -> float) :
  (i < n)%nat -> f i = nan -> sum_upto n f = nan.
Proof.
  intros Hi Hf. unfold sum_upto. apply sum_list_nan.
  rewrite <- Hf. apply in_map. apply in_seq. lia.
Qed.

Lemma map_all_nan {A : Type} (f : A -> float) (l : list A) :
  (forall x, In x l -> f x = nan) -> map f l = repeat nan (length l).
Proof.
  intro H. induction l as [|x t IH]; cbn; [reflexivity |].
  rewrite H by (now left). f_equal. apply IH. intros y Hy. apply H. now right.
Qed.

Lemma tabulate_all_nan (f : nat -> float) (n : nat) :
  (forall i, (i < n)%nat -> f i = nan) -> map f (seq 0 n) = repeat nan n.
Proof.
  intro H. rewrite map_all_nan; [now rewrite length_seq |].
  intros i Hi. apply H. apply in_seq in Hi. lia.
Qed.

Lemma arr_get_repeat_nan (n i : nat) : arr_get (repeat nan n) i = nan.
Proof.
  unfold arr_get. revert i. induction n as [|n IH]; intros [|i]; cbn; auto.
Qed.

Lemma entry_spec_cov (Math_pow : float -> float -> float)
    (assets : list Asset) (i j : nat) :
  (i < length assets)%nat -> (j < length assets)%nat ->
  entry (spec_cov Math_pow assets) i j
  = spec_cov_entry Math_pow
      (fun k => nth k (map volatility assets) nan) i j.
Proof.
  intros Hi Hj. unfold entry, spec_cov.
  rewrite (nth_error_nth _ _ []
             (map_nth_error _ i (seq 0 (length assets))
                (nth_error_seq0 _ i Hi))).
  now rewrite arr_get_tabulate.
Qed.

Section Poisoned.

Variable Math_exp : float -> float.
Variable Math_pow : float -> float -> float.
Variable rf : float.
Variable r : list float.
Variable cov : matrix.
Variable lo hi : float.

(** A weight vector on which the return or the volatility is [NaN]. *)
Let poisoned (w : list float) : Prop :=
  spec_R r w = nan \/ spec_sigma cov w = nan.

Lemma poisoned_sharpe (w : list float) :
  poisoned w -> spec_S rf r cov w = nan.
Proof.
  unfold spec_S. intros [-> | ->]; now nan_propagate.
Qed.

Lemma poisoned_gradient (w : list float) :
  poisoned w -> spec_gradient Math_pow rf r cov w = repeat nan (length w).
Proof.
  intro H. unfold spec_gradient. apply tabulate_all_nan.
  intros i _. unfold spec_dS. destruct H as [-> | H].
  - now nan_propagate.
  - unfold spec_dsigma. rewrite !H. now nan_propagate.
Qed.

Lemma poisoned_step (iteration : float) (w : list float) :
  poisoned w ->
  spec_step Math_exp Math_pow rf r cov lo hi iteration w
  = repeat nan (length w).
Proof.
  intro H. unfold spec_step.
  assert (Hc : spec_candidates Math_exp Math_pow rf r cov lo hi iteration w
               = repeat nan (length w)).
  { unfold spec_candidates. rewrite poisoned_gradient by exact H.
    apply tabulate_all_nan.
    intros i _. unfold spec_clip. rewrite arr_get_repeat_nan.
    now nan_propagate. }
  rewrite Hc, map_all_nan; [now rewrite repeat_length |].
  intros x Hx. apply repeat_spec in Hx. subst x.
  apply div_nan_l.
Qed.

Lemma weightsAt_length (n k : nat) :
  length (spec_weightsAt Math_exp Math_pow rf r cov lo hi n k) = n.
Proof.
  induction k as [|k IH]; cbn [spec_weightsAt]; [apply repeat_length |].
  unfold spec_step, spec_candidates. now rewrite !length_map, length_seq.
Qed.

Lemma all_nan_poisoned (n : nat) : (1 <= n)%nat -> poisoned (repeat nan n).
Proof.
  intro Hn. left. unfold spec_R. rewrite repeat_length.
  apply (sum_upto_nan n 0); [lia |].
  rewrite arr_get_repeat_nan. apply mul_nan_l.
Qed.

Lemma poisoned_weightsAt (n : nat) :
  (1 <= n)%nat ->
  poisoned (spec_weightsAt Math_exp Math_pow rf r cov lo hi n 0) ->
  forall k,
    poisoned (spec_weightsAt Math_exp Math_pow rf r cov lo hi n k)
    /\ spec_weightsAt Math_exp Math_pow rf r cov lo hi n (S k)
       = repeat nan n.
Proof.
  intros Hn H0.
  assert (Hstep : forall k,
            poisoned (spec_weightsAt Math_exp Math_pow rf r cov lo hi n k) ->
            spec_weightsAt Math_exp Math_pow rf r cov lo hi n (S k)
            = repeat nan n).
  { intros k Hk. cbn [spec_weightsAt]. rewrite poisoned_step by exact Hk.
    now rewrite weightsAt_length. }
  induction k as [|k [IHp IHw]].
  - split; [exact H0 | now apply Hstep].
  - assert (Hp : poisoned
                   (spec_weightsAt Math_exp Math_pow rf r cov lo hi n (S k)))
      by (rewrite IHw; now apply all_nan_poisoned).
    split; [exact Hp | now apply Hstep].
Qed.

Lemma poisoned_never_converges (tol : float) (n : nat) :
  (1 <= n)%nat ->
  poisoned (spec_weightsAt Math_exp Math_pow rf r cov lo hi n 0) ->
  forall k,
    spec_converged Math_exp Math_pow rf r cov lo hi tol n k = false.
Proof.
  intros Hn H0 k. unfold spec_converged, spec_objective.
  destruct (poisoned_weightsAt n Hn H0 k) as [_ Hw].
  rewrite Hw, (poisoned_sharpe _ (all_nan_poisoned n Hn)).
  unfold Math_abs. nan_propagate. change (abs nan) with nan.
  apply ltb_nan_l.
Qed.

End Poisoned.

Lemma nan_asset_poisons_uniform_weights (Math_pow : float -> float -> float)
    (assets : list Asset) (i : nat) (a : Asset) (w : list float) :
  nth_error assets i = Some a ->
  expectedReturn a = nan \/ volatility a = nan ->
  (2 <= length assets)%nat ->
  length w = length assets ->
  spec_R (map expectedReturn assets) w = nan
  \/ spec_sigma (spec_cov Math_pow assets) w = nan.
Proof.
  intros Ha Hnan Hn Hw.
  assert (Hi : (i < length assets)%nat) by (apply nth_error_Some; congruence).
  destruct Hnan as [Hr | Hv].
  - left. unfold spec_R. apply (sum_upto_nan _ i); [lia |].
    unfold arr_get at 2.
    rewrite (nth_map_some expectedReturn assets i a Ha), Hr.
    apply mul_nan_r.
  - right. unfold spec_sigma.
    assert (HV : spec_V (spec_cov Math_pow assets) w = nan).
    { unfold spec_V. apply sum_list_nan. apply in_flat_map.
      exists i. split; [apply in_seq; lia |].
      set (j := if (i =? 0)%nat then 1%nat else 0%nat).
      assert (Hj : (j < length assets)%nat /\ (i =? j)%nat = false).
      { unfold j. destruct (Nat.eqb_spec i 0) as [-> | Hne].
        - split; [lia | reflexivity].
        - split; [lia | now apply Nat.eqb_neq]. }
      destruct Hj as [Hj Hij].
      apply in_map_iff. exists j. split; [| apply in_seq; lia].
      rewrite entry_spec_cov by lia. unfold spec_cov_entry. rewrite Hij.
      rewrite (nth_map_some volatility assets i a Ha), Hv.
      now nan_propagate. }
    rewrite HV. reflexivity.
Qed.

(** X6.  An asset whose expected return or volatility is [NaN] is not
    rejected: with at least two assets and a guard that allows at least one
    pass, [optimizePortfolio] returns a result, given fuel for the passes
    that the guard allows, after all of them, and the optimal weights, the
    convergence trace and the Sharpe ratio of the result are all [NaN]. *)
Theorem nan_input_gives_nan_result :
  forall (Math_exp : float -> float) (Math_pow : float -> float -> float)
         (this : QuantumPortfolioOptimizer) (passes fuel : nat)
         (assets : list Asset) (c : Constraints) (i : nat) (a : Asset),
    nth_error assets i = Some a ->
    expectedReturn a = nan \/ volatility a = nan ->
    (2 <= length assets)%nat ->
    passesAllowed this passes = true ->
    (1 <= passes)%nat ->
    (passes < fuel)%nat ->
    exists res : OptimizationResult,
      optimizePortfolio Math_exp Math_pow this fuel assets c = Some (inr res)
      /\ optimalWeights res = repeat nan (length assets)
      /\ iterations res = passes
      /\ convergenceData res = repeat nan (iterations res)
      /\ or_sharpeRatio res = nan.
Proof.
  intros Math_exp Math_pow this passes fuel assets c i a Ha Hnan Hn
    Hallowed Hpasses Hfuel.
  assert (Hn1 : (1 <= length assets)%nat) by lia.
  assert (H0 : spec_R (map expectedReturn assets)
                 (spec_weightsAt Math_exp Math_pow (riskFreeRate this)
                    (map expectedReturn assets) (spec_cov Math_pow assets)
                    (lowerBound c) (upperBound c) (length assets) 0) = nan
               \/ spec_sigma (spec_cov Math_pow assets)
                    (spec_weightsAt Math_exp Math_pow (riskFreeRate this)
                       (map expectedReturn assets) (spec_cov Math_pow assets)
                       (lowerBound c) (upperBound c) (length assets) 0)
                  = nan).
  { apply (nan_asset_poisons_uniform_weights Math_pow assets i a);
      try assumption.
    apply repeat_length. }
  pose proof (poisoned_weightsAt Math_exp Math_pow (riskFreeRate this)
                (map expectedReturn assets) (spec_cov Math_pow assets)
                (lowerBound c) (upperBound c) (length assets) Hn1 H0) as HW.
  pose proof (poisoned_never_converges Math_exp Math_pow (riskFreeRate this)
                (map expectedReturn assets) (spec_cov Math_pow assets)
                (lowerBound c) (upperBound c) (tolerance this)
                (length assets) Hn1 H0) as Hnc.
  destruct (passesAllowed_spec this passes Hallowed) as [_ Hlast].
  destruct (quantumOptimization_ends Math_exp Math_pow this passes fuel
              assets c Hlast Hfuel) as [res Hrun].
  assert (Hres : optimizePortfolio Math_exp Math_pow this fuel assets c
                 = Some (inr res)).
  { unfold optimizePortfolio.
    destruct (Nat.ltb_spec (length assets) 2); [lia | exact Hrun]. }
  destruct (optimizePortfolio_returns _ _ _ _ _ _ _ Hres)
    as (m & Hw & _ & _ & Hs & Hconv & Hit & Hguard & _ & Hend).
  assert (Em : m = passes).
  { apply (passes_run_are_allowed this); [exact Hallowed | | exact Hguard].
    destruct Hend as [Hend | [_ Hc]]; [exact Hend |].
    unfold convergedAtPass in Hc. rewrite Hnc in Hc. discriminate Hc. }
  exists res. split; [exact Hres |].
  rewrite Hit, Hs, Hw, Hconv, Em.
  destruct passes as [|k]; [lia |].
  assert (Hwk : weightsAtPass Math_exp Math_pow this assets c (S k)
                = repeat nan (length assets)) by (apply (HW k)).
  split; [exact Hwk |]. split; [reflexivity |]. split.
  - apply tabulate_all_nan. intros j _.
    unfold sharpeOf. apply poisoned_sharpe. apply (HW j).
  - unfold sharpeOf. apply poisoned_sharpe. rewrite Hwk.
    now apply all_nan_poisoned.
Qed.

(** ** Fewer weights than assets *)

Lemma flat_map_ext_in {A B : Type} (f g : A -> list B) (l : list A) :
  (forall x, In x l -> f x = g x) -> flat_map f l = flat_map g l.
Proof.
  intro H. induction l as [|x t IH]; cbn; [reflexivity |].
  rewrite H by (now left). f_equal. apply IH. intros y Hy. apply H. now right.
Qed.

Lemma arr_get_map_firstn {A : Type} (f : A -> float) (l : list A) (k i : nat) :
  (i < k)%nat -> arr_get (map f (firstn k l)) i = arr_get (map f l) i.
Proof.
  intro Hi. unfold arr_get. rewrite <- firstn_map, nth_firstn.
  destruct (Nat.ltb_spec i k); [reflexivity | lia].
Qed.

(** X7.  With fewer weights than assets, [calculatePortfolioMetrics]
    gives what it gives for the first assets alone, as many as there are
    weights: the assets beyond the weights are ignored. *)
Theorem metrics_ignore_assets_beyond_the_weights :
  forall (Math_pow : float -> float -> float)
         (this : QuantumPortfolioOptimizer) (assets : list Asset)
         (weights : list float),
    (length weights <= length assets)%nat ->
    calculatePortfolioMetrics Math_pow this assets weights
    = calculatePortfolioMetrics Math_pow this
        (firstn (length weights) assets) weights.
Proof.
  intros Math_pow this assets weights Hlen.
  set (k := length weights).
  assert (Hk : length (firstn k assets) = k) by (apply firstn_length_le; lia).
  unfold calculatePortfolioMetrics.
  rewrite !calculateCovarianceMatrix_closed. cbn [bind ret].
  rewrite !portfolioVariance_closed by (rewrite spec_cov_length; lia).
  cbn [bind ret]. rewrite !portfolioReturn_closed.
  assert (HR : spec_R (map expectedReturn assets) weights
               = spec_R (map expectedReturn (firstn k assets)) weights).
  { unfold spec_R, sum_upto. f_equal. apply map_ext_in. intros i Hi.
    apply in_seq in Hi. fold k in Hi.
    now rewrite arr_get_map_firstn by lia. }
  assert (HV : spec_V (spec_cov Math_pow assets) weights
               = spec_V (spec_cov Math_pow (firstn k assets)) weights).
  { unfold spec_V. fold k. f_equal. apply flat_map_ext_in. intros i Hi.
    apply in_seq in Hi. apply map_ext_in. intros j Hj. apply in_seq in Hj.
    f_equal. rewrite !entry_spec_cov by lia.
    unfold spec_cov_entry.
    change (nth i (map volatility (firstn k assets)) nan)
      with (arr_get (map volatility (firstn k assets)) i).
    change (nth j (map volatility (firstn k assets)) nan)
      with (arr_get (map volatility (firstn k assets)) j).
    now rewrite !arr_get_map_firstn by lia. }
  unfold spec_S, spec_sigma. now rewrite HR, HV.
Qed.

(** ** Reading a CSV line *)

Lemma append_nil_r (s : string) : (s ++ EmptyString)%string = s.
Proof. induction s as [|c s IH]; cbn; [reflexivity | now rewrite IH]. Qed.

Lemma append_assoc (a b c : string) :
  ((a ++ b) ++ c)%string = (a ++ (b ++ c))%string.
Proof. induction a as [|x a IH]; cbn; [reflexivity | now rewrite IH]. Qed.

Lemma has_char_append (c : Ascii.ascii) (a b : string) :
  has_char c (a ++ b) = has_char c a || has_char c b.
Proof.
  induction a as [|x a IH]; cbn; [reflexivity |].
  now rewrite IH, orb_assoc.
Qed.

(** Text without quotes, and without commas outside quotes, is appended to
    the current field. *)
Lemma parse_plain_text (s rest : string) (result : list string)
    (current : string) (inQuotes : bool) :
  has_char QUOTE s = false ->
  (inQuotes = false -> has_char COMMA s = false) ->
  parseCSVLine_from (s ++ rest) result current inQuotes
  = parseCSVLine_from rest result (current ++ s) inQuotes.
Proof.
  revert current. induction s as [|c s IH]; intros current Hq Hc.
  - cbn. now rewrite append_nil_r.
  - cbn [has_char] in Hq. apply orb_false_iff in Hq. destruct Hq as [Hq1 Hq2].
    cbn [append parseCSVLine_from]. rewrite Hq1.
    assert (Hcomma : Ascii.eqb c COMMA && negb inQuotes = false).
    { destruct inQuotes; [apply andb_false_r |].
      specialize (Hc eq_refl). cbn [has_char] in Hc. apply orb_false_iff in Hc.
      destruct Hc as [-> _]. reflexivity. }
    rewrite Hcomma, IH.
    + now rewrite append_assoc.
    + exact Hq2.
    + intro E. specialize (Hc E). cbn [has_char] in Hc.
      apply orb_false_iff in Hc. tauto.
Qed.

Lemma parse_cell (cell : bool * string) (rest : string)
    (result : list string) (current : string) :
  readable_cell cell ->
  parseCSVLine_from (write_cell cell ++ rest) result current false
  = parseCSVLine_from rest result (current ++ snd cell) false.
Proof.
  destruct cell as [[|] s]; unfold readable_cell;
    cbn [fst snd write_cell]; intros [Hq Hc].
  - unfold in_quotes. cbn [append parseCSVLine_from].
    change (Ascii.eqb QUOTE QUOTE) with true. cbn [negb].
    rewrite append_assoc, parse_plain_text by (auto; discriminate).
    cbn [append parseCSVLine_from].
    change (Ascii.eqb QUOTE QUOTE) with true. reflexivity.
  - apply parse_plain_text; auto.
Qed.

Lemma join_cons_cons (sep : Ascii.ascii) (x : string) (l : list string) :
  l <> [] ->
  join sep (x :: l) = (x ++ String sep (join sep l))%string.
Proof. destruct l; [congruence | reflexivity]. Qed.

Lemma parse_row (cells : list (bool * string)) :
  forall (first : bool * string) (result : list string) (current : string),
    Forall readable_cell (first :: cells) ->
    parseCSVLine_from (join COMMA (map write_cell (first :: cells)))
      result current false
    = result ++ (current ++ snd first)%string :: map snd cells.
Proof.
  induction cells as [|next cells IH]; intros first result current Hwf;
    inversion Hwf as [|? ? Hfirst Hrest]; subst.
  - cbn [map join String.concat].
    rewrite <- (append_nil_r (write_cell first)).
    rewrite parse_cell by assumption. reflexivity.
  - change (map write_cell (first :: next :: cells))
      with (write_cell first :: map write_cell (next :: cells)).
    rewrite join_cons_cons by discriminate.
    rewrite parse_cell by assumption.
    cbn [parseCSVLine_from].
    change (Ascii.eqb COMMA QUOTE) with false.
    change (Ascii.eqb COMMA COMMA && negb false) with true. cbv iota.
    rewrite IH by assumption. cbn [append map].
    now rewrite <- app_assoc.
Qed.

(** X8.  [parseCSVLine] reads back a row of cells joined by commas, each
    written as it is or wrapped in double quotes, when no cell holds a double
    quote and no cell written as it is holds a comma: a comma inside quotes
    stays in its cell, and the quotes are dropped. *)
Theorem parseCSVLine_reads_written_row :
  forall (first : bool * string) (cells : list (bool * string)),
    Forall readable_cell (first :: cells) ->
    parseCSVLine (join COMMA (map write_cell (first :: cells)))
    = map snd (first :: cells).
Proof.
  intros first cells Hwf. unfold parseCSVLine.
  now rewrite parse_row.
Qed.

Lemma parse_no_quote (line : string) :
  forall (result : list string) (current : string) (inQuotes : bool),
    Forall (fun f => has_char QUOTE f = false) result ->
    has_char QUOTE current = false ->
    Forall (fun f => has_char QUOTE f = false)
      (parseCSVLine_from line result current inQuotes).
Proof.
  induction line as [|c line IH]; intros result current inQuotes Hr Hc.
  - cbn. apply Forall_app. split; [exact Hr | now constructor].
  - cbn [parseCSVLine_from]. destruct (Ascii.eqb c QUOTE) eqn:Eq.
    + now apply IH.
    + destruct (Ascii.eqb c COMMA && negb inQuotes).
      * apply IH; [| reflexivity].
        apply Forall_app. split; [exact Hr | now constructor].
      * apply IH; [exact Hr |].
        rewrite has_char_append, Hc. cbn [has_char orb]. now rewrite Eq.
Qed.

Lemma parse_length (line : string) :
  forall (result : list string) (current : string) (inQuotes : bool),
    (length result
     < length (parseCSVLine_from line result current inQuotes))%nat.
Proof.
  induction line as [|c line IH]; intros result current inQuotes.
  - cbn. rewrite length_app. cbn. lia.
  - cbn [parseCSVLine_from]. destruct (Ascii.eqb c QUOTE); [apply IH |].
    destruct (Ascii.eqb c COMMA && negb inQuotes); [| apply IH].
    eapply Nat.lt_trans; [| apply IH]. rewrite length_app. cbn. lia.
Qed.

(** X9.  [parseCSVLine] returns at least one field for every line, and no
    field it returns holds a double quote. *)
Theorem parseCSVLine_fields_have_no_quote :
  forall line : string,
    parseCSVLine line <> []
    /\ Forall (fun f => has_char QUOTE f = false) (parseCSVLine line).
Proof.
  intro line. split.
  - intro E. pose proof (parse_length line [] EmptyString false) as H.
    unfold parseCSVLine in E. rewrite E in H. cbn in H. lia.
  - apply parse_no_quote; [constructor | reflexivity].
Qed.

(** ** Numbers as text *)


Lemma has_char_true_append (c : Ascii.ascii) (a b : string) :
  has_char c (a ++ b) = true ->
  has_char c a = true \/ has_char c b = true.
Proof. rewrite has_char_append. apply orb_true_iff. Qed.

Lemma digits_in_alphabet (d : Decimal.uint) (c : Ascii.ascii) :
  has_char c (DecimalString.NilEmpty.string_of_uint d) = true ->
  has_char c figure_alphabet = true.
Proof.
  induction d; cbn [DecimalString.NilEmpty.string_of_uint has_char];
    intro H; try discriminate;
    apply orb_true_iff in H; destruct H as [H | H]; auto;
    apply Ascii.eqb_eq in H; subst c; reflexivity.
Qed.

Lemma decimal_in_alphabet (n : Z) (c : Ascii.ascii) :
  has_char c (decimal n) = true -> has_char c figure_alphabet = true.
Proof.
  unfold decimal, DecimalString.NilZero.string_of_uint.
  destruct (N.to_uint (Z.to_N n)) eqn:E;
    try (rewrite <- E; apply digits_in_alphabet).
  cbn [has_char]. intro H. apply orb_true_iff in H.
  destruct H as [H | H]; [| discriminate].
  apply Ascii.eqb_eq in H. subst c. reflexivity.
Qed.

Lemma zeros_in_alphabet (k : nat) (c : Ascii.ascii) :
  has_char c (zeros k) = true -> has_char c figure_alphabet = true.
Proof.
  induction k as [|k IH]; cbn [zeros has_char]; intro H; [discriminate |].
  apply orb_true_iff in H. destruct H as [H | H]; auto.
  apply Ascii.eqb_eq in H. subst c. reflexivity.
Qed.

Lemma has_char_substring (c : Ascii.ascii) (s : string) :
  forall n m : nat,
    has_char c (substring n m s) = true -> has_char c s = true.
Proof.
  induction s as [|x s IH]; intros n m H.
  - destruct n, m; cbn in H; discriminate.
  - destruct n as [|n].
    + destruct m as [|m]; cbn [substring has_char] in *; [discriminate |].
      apply orb_true_iff in H. apply orb_true_iff.
      destruct H as [H | H]; [now left | right; eauto].
    + cbn [substring has_char] in *. apply orb_true_iff. right. eauto.
Qed.

Lemma fixed_notation_in_alphabet (n : Z) (f : nat) (c : Ascii.ascii) :
  has_char c (fixed_notation n f) = true ->
  has_char c figure_alphabet = true.
Proof.
  unfold fixed_notation. destruct (f =? 0)%nat.
  - apply decimal_in_alphabet.
  - set (m := if (String.length (decimal n) <=? f)%nat then _ else _).
    assert (Hm : has_char c m = true -> has_char c figure_alphabet = true).
    { subst m. destruct (String.length (decimal n) <=? f)%nat.
      - intro H. apply has_char_true_append in H.
        destruct H as [H | H];
          [eapply zeros_in_alphabet | eapply decimal_in_alphabet]; eauto.
      - apply decimal_in_alphabet. }
    intro H. apply has_char_true_append in H. destruct H as [H | H].
    + apply Hm. eapply has_char_substring; eauto.
    + apply has_char_true_append in H. destruct H as [H | H].
      * cbn [has_char] in H. apply orb_true_iff in H.
        destruct H as [H | H]; [| discriminate].
        apply Ascii.eqb_eq in H. subst c. reflexivity.
      * apply Hm. eapply has_char_substring; eauto.
Qed.

Lemma finite_not_infinity (x : float) (s : bool) (m : positive) (e : Z) :
  Prim2SF x = S754_finite s m e -> is_infinity x = false.
Proof.
  intro E. unfold is_infinity.
  rewrite FloatAxioms.eqb_spec, abs_spec, E. reflexivity.
Qed.

Lemma finite_not_nan (x : float) (s : bool) (m : positive) (e : Z) :
  Prim2SF x = S754_finite s m e -> is_nan x = false.
Proof.
  intro E. unfold is_nan.
  rewrite FloatAxioms.eqb_spec, E. cbn.
  pose proof (Z.compare_refl e) as He.
  pose proof (Pos.compare_refl m) as Hm.
  unfold SFeqb, SFcompare. destruct s; rewrite He, ?Pos.compare_cont_refl;
    try rewrite Hm; reflexivity.
Qed.

(** The text of a printable number is made of digits, a point, a minus
    sign and the letters of [NaN] and [Infinity]. *)
Lemma toFixed_in_alphabet (Number_toString : float -> string)
    (x : float) (f : nat) (c : Ascii.ascii) :
  printable x = true ->
  has_char c (toFixed Number_toString x f) = true ->
  has_char c figure_alphabet = true.
Proof.
  unfold toFixed, printable. intro Hp.
  destruct (Prim2SF x) as [s | s | | s m e] eqn:E.
  - apply fixed_notation_in_alphabet.
  - destruct s; cbn [has_char]; intro H;
      repeat (apply orb_true_iff in H; destruct H as [H | H];
              [apply Ascii.eqb_eq in H; subst c; reflexivity |]);
      discriminate.
  - cbn [has_char]; intro H;
      repeat (apply orb_true_iff in H; destruct H as [H | H];
              [apply Ascii.eqb_eq in H; subst c; reflexivity |]);
      discriminate.
  - rewrite (finite_not_infinity _ _ _ _ E), (finite_not_nan _ _ _ _ E)
      in Hp.
    rewrite !orb_false_r in Hp. rewrite Hp.
    intro H. apply has_char_true_append in H. destruct H as [H | H].
    + destruct s; [| discriminate]. cbn [has_char] in H.
      apply orb_true_iff in H. destruct H as [H | H]; [| discriminate].
      apply Ascii.eqb_eq in H. subst c. reflexivity.
    + eapply fixed_notation_in_alphabet; eauto.
Qed.

Lemma toFixed_no_separator (Number_toString : float -> string)
    (x : float) (f : nat) (c : Ascii.ascii) :
  printable x = true ->
  has_char c figure_alphabet = false ->
  has_char c (toFixed Number_toString x f) = false.
Proof.
  intros Hp Hc.
  destruct (has_char c (toFixed Number_toString x f)) eqn:E;
    [| reflexivity].
  apply toFixed_in_alphabet in E; [congruence | exact Hp].
Qed.

(** ** Export to CSV *)

Lemma nth_error_mapi_from {A B : Type} (f : A -> nat -> B) (l : list A) :
  forall (start i : nat) (x : A),
    nth_error l i = Some x ->
    nth_error (mapi_from f start l) i = Some (f x (start + i)%nat).
Proof.
  induction l as [|y l IH]; intros start i x H.
  - destruct i; discriminate.
  - destruct i as [|i]; cbn [mapi_from nth_error] in *.
    + injection H as <-. now rewrite Nat.add_0_r.
    + rewrite (IH (S start) i x H). f_equal. f_equal. lia.
Qed.

Lemma nth_error_mapi {A B : Type} (f : A -> nat -> B) (l : list A)
    (i : nat) (x : A) :
  nth_error l i = Some x -> nth_error (mapi f l) i = Some (f x i).
Proof. intro H. exact (nth_error_mapi_from f l 0 i x H). Qed.

Lemma mapi_from_ext {A B : Type} (f g : A -> nat -> B) (l : list A) :
  forall start : nat,
    (forall x i, f x i = g x i) -> mapi_from f start l = mapi_from g start l.
Proof.
  induction l as [|y l IH]; intros start H; cbn [mapi_from];
    [reflexivity |].
  now rewrite H, (IH (S start) H).
Qed.

Lemma assetRow_cells (Number_toString : float -> string)
    (weights : option (list float)) (asset : Asset) (index : nat) :
  assetRow Number_toString weights asset index
  = map write_cell (assetCells Number_toString weights asset index).
Proof. reflexivity. Qed.

Lemma exportToCSV_asset_line (Number_toString : float -> string)
    (assets : list Asset) (weights : option (list float))
    (optimizationResult : option OptimizationResult)
    (index : nat) (asset : Asset) :
  nth_error assets index = Some asset ->
  nth_error (exportToCSV_lines Number_toString assets weights
               optimizationResult) (S index)
  = Some (join COMMA (assetRow Number_toString weights asset index)).
Proof.
  intro H. unfold exportToCSV_lines. cbn [nth_error].
  assert (Hrow : nth_error (mapi (assetRow Number_toString weights) assets)
                   index
                 = Some (assetRow Number_toString weights asset index))
    by now apply nth_error_mapi.
  destruct optimizationResult as [res |].
  - rewrite map_app, nth_error_app1.
    + now rewrite nth_error_map, Hrow.
    + rewrite length_map. apply nth_error_Some. now rewrite Hrow.
  - now rewrite nth_error_map, Hrow.
Qed.

Lemma assetCells_readable (Number_toString : float -> string)
    (weights : option (list float)) (asset : Asset) (index : nat) :
  has_char COMMA (symbol asset) = false ->
  has_char QUOTE (symbol asset) = false ->
  has_char QUOTE (name asset) = false ->
  forallb printable (assetFigures weights asset index) = true ->
  Forall readable_cell (assetCells Number_toString weights asset index).
Proof.
  intros Hc Hq Hn Hp. unfold assetFigures in Hp. cbn [forallb] in Hp.
  repeat (apply andb_true_iff in Hp; destruct Hp as [? Hp]).
  unfold assetCells.
  repeat apply Forall_cons; try apply Forall_nil; split; cbn [fst snd];
    try assumption; try discriminate; try intros _;
    try (apply toFixed_no_separator; [assumption | reflexivity]);
    assumption.
Qed.

(** X10.  Of the lines that [exportToCSV] joins with line breaks, the one
    at position [index + 1], after the header, is the row of the asset at
    [index], and [parseCSVLine] reads it back as the seven cells symbol,
    name, expected return, volatility, price, weight and allocation value,
    the name without its quotes, when the symbol holds no comma and no
    double quote, the name no double quote, and the five numbers are not
    finite or below [1e21] in magnitude. *)
Theorem exported_asset_row_is_read_back
    (Number_toString : float -> string) (assets : list Asset)
    (weights : option (list float))
    (optimizationResult : option OptimizationResult)
    (index : nat) (asset : Asset) :
  nth_error assets index = Some asset ->
  has_char COMMA (symbol asset) = false ->
  has_char QUOTE (symbol asset) = false ->
  has_char QUOTE (name asset) = false ->
  forallb printable (assetFigures weights asset index) = true ->
  exists line : string,
    nth_error (exportToCSV_lines Number_toString assets weights
                 optimizationResult) (S index) = Some line
    /\ parseCSVLine line
       = [symbol asset; name asset;
          toFixed Number_toString (expectedReturn asset) 4;
          toFixed Number_toString (volatility asset) 4;
          toFixed Number_toString (price asset) 2;
          toFixed Number_toString (exportedWeight weights index) 4;
          toFixed Number_toString
            (exportedWeight weights index * price asset) 2].
Proof.
  intros Hnth Hc Hq Hn Hp. eexists. split.
  - apply exportToCSV_asset_line. exact Hnth.
  - rewrite assetRow_cells. unfold assetCells, parseCSVLine.
    rewrite parse_row; [reflexivity |].
    now apply assetCells_readable.
Qed.

(** X11.  Weights that are all zero or [NaN] are exported by [exportToCSV]
    exactly as if no weights were given: every weight is written as zero. *)
Theorem falsy_weights_export_like_no_weights
    (Number_toString : float -> string) (assets : list Asset)
    (weights : list float)
    (optimizationResult : option OptimizationResult) :
  Forall (fun w => truthy w = false) weights ->
  exportToCSV Number_toString assets (Some weights) optimizationResult
  = exportToCSV Number_toString assets None optimizationResult.
Proof.
  intro H. unfold exportToCSV, exportToCSV_lines, mapi.
  rewrite (mapi_from_ext (assetRow Number_toString (Some weights))
             (assetRow Number_toString None)); [reflexivity |].
  intros asset index. unfold assetRow.
  assert (E : or_default (nth_error weights index) 0 = or_default None 0).
  { destruct (nth_error weights index) as [w |] eqn:Ew; [| reflexivity].
    cbn [or_default]. apply nth_error_In in Ew.
    rewrite Forall_forall in H. now rewrite (H w Ew). }
  now rewrite E.
Qed.

(** ** Import from CSV *)

Lemma split_plain_text (sep : Ascii.ascii) (s rest current : string) :
  has_char sep s = false ->
  split_from sep (s ++ rest) current = split_from sep rest (current ++ s).
Proof.
  revert current. induction s as [|c s IH]; intros current H.
  - cbn. now rewrite append_nil_r.
  - cbn [has_char] in H. apply orb_false_iff in H. destruct H as [Hc Hs].
    cbn [append split_from]. rewrite Hc, IH by exact Hs.
    now rewrite append_assoc.
Qed.

Lemma split_from_join (sep : Ascii.ascii) (pieces : list string) :
  forall (first current : string),
    Forall (fun p => has_char sep p = false) (first :: pieces) ->
    split_from sep (join sep (first :: pieces)) current
    = (current ++ first)%string :: pieces.
Proof.
  induction pieces as [|next pieces IH]; intros first current H;
    inversion H as [|? ? Hfirst Hrest]; subst.
  - cbn [join String.concat].
    rewrite <- (append_nil_r first) at 1.
    now rewrite split_plain_text.
  - rewrite join_cons_cons by discriminate.
    rewrite split_plain_text by exact Hfirst.
    cbn [split_from]. rewrite Ascii.eqb_refl.
    now rewrite IH.
Qed.

Lemma split_join (sep : Ascii.ascii) (pieces : list string) :
  pieces <> [] ->
  Forall (fun p => has_char sep p = false) pieces ->
  split sep (join sep pieces) = pieces.
Proof.
  destruct pieces as [|first pieces]; [congruence |]. intros _ H.
  unfold split. now rewrite split_from_join.
Qed.

Section ImportFacts.

Variable String_toUpperCase : string -> string.
Variable Number_parseFloat : string -> float.

Lemma or_default_truthy (x : option float) (d : float) :
  truthy d = true -> truthy (or_default x d) = true.
Proof.
  intro Hd. destruct x as [v |]; cbn [or_default]; [| exact Hd].
  destruct (truthy v) eqn:E; assumption.
Qed.

Lemma parsedOr_truthy (values : list string) (index : option nat)
    (d : float) :
  truthy d = true ->
  truthy (parsedOr Number_parseFloat values index d) = true.
Proof.
  intro Hd. unfold parsedOr. destruct index; [| exact Hd].
  now apply or_default_truthy.
Qed.

Lemma importRows_usable (headers : list string) (symbolIndex : nat)
    (nameIndex returnIndex volatilityIndex priceIndex : option nat)
    (rows : list string) :
  forall assets : list Asset,
    Forall usable assets ->
    Forall usable
      (importRows String_toUpperCase Number_parseFloat headers symbolIndex
         nameIndex returnIndex volatilityIndex priceIndex rows assets).
Proof.
  induction rows as [|row rows IH]; intros assets H; [exact H |].
  cbn [importRows]. cbv zeta.
  destruct (negb (nonempty (trim row))
            || prefix "Portfolio Summary" (trim row)); [exact H |].
  destruct (length (parseCSVLine (trim row)) <? length headers)%nat;
    [now apply IH |].
  destruct (nth_error (parseCSVLine (trim row)) symbolIndex) as [value |];
    [| now apply IH].
  destruct (negb (nonempty (trim value))); [now apply IH |].
  cbn [expectedReturn volatility price].
  match goal with
  | |- context [if ?c then _ else _] => destruct c
  end; [now apply IH |].
  apply IH. apply Forall_app. split; [exact H |].
  constructor; [| constructor].
  repeat split; cbn [expectedReturn volatility price];
    now apply parsedOr_truthy.
Qed.

(** X12.  When [importFromCSV] succeeds it returns at least one asset, and
    the expected return, volatility and price of every asset are neither
    zero nor [NaN]: a cell that reads as zero or does not read as a number
    has been replaced by the default. *)
Theorem imported_numbers_are_never_zero_or_NaN (content : string)
    (assets : list Asset) :
  importFromCSV String_toUpperCase Number_parseFloat content = inr assets ->
  assets <> []
  /\ Forall (fun asset =>
               truthy (expectedReturn asset) = true
               /\ truthy (volatility asset) = true
               /\ truthy (price asset) = true) assets.
Proof.
  unfold importFromCSV.
  destruct (filter _ (split NEWLINE content)) as [|header [|row rows]];
    try discriminate.
  cbv zeta. destruct (findIndex _ _) as [symbolIndex |]; [| discriminate].
  match goal with
  | |- context [importRows ?u ?p ?h ?s ?n ?r ?v ?pr ?rows []] =>
      pose proof (importRows_usable h s n r v pr rows [] (Forall_nil _))
        as Husable;
      destruct (importRows u p h s n r v pr rows []) as [|a l] eqn:E
  end; [discriminate |].
  cbn. intro H. injection H as <-. split; [discriminate | exact Husable].
Qed.

Lemma importRows_stops (headers : list string) (symbolIndex : nat)
    (nameIndex returnIndex volatilityIndex priceIndex : option nat)
    (stop : string) (post post' : list string) (rows : list string) :
  prefix "Portfolio Summary" (trim stop) = true ->
  forall assets : list Asset,
    importRows String_toUpperCase Number_parseFloat headers symbolIndex
      nameIndex returnIndex volatilityIndex priceIndex
      (rows ++ stop :: post) assets
    = importRows String_toUpperCase Number_parseFloat headers symbolIndex
        nameIndex returnIndex volatilityIndex priceIndex
        (rows ++ stop :: post') assets.
Proof.
  intro Hstop.
  induction rows as [|row rows IH]; intro assets.
  - cbn [app importRows]. cbv zeta. rewrite Hstop, orb_true_r.
    reflexivity.
  - cbn [app importRows]. cbv zeta.
    destruct (negb (nonempty (trim row))
              || prefix "Portfolio Summary" (trim row)); [reflexivity |].
    destruct (length (parseCSVLine (trim row)) <? length headers)%nat;
      [apply IH |].
    destruct (nth_error (parseCSVLine (trim row)) symbolIndex);
      [| apply IH].
    destruct (negb (nonempty (trim _))); [apply IH |].
    match goal with
    | |- context [if ?c then _ else _] => destruct c
    end; apply IH.
Qed.

Lemma prefix_nonempty (p s : string) :
  nonempty p = true -> prefix p s = true -> nonempty s = true.
Proof. destruct p, s; cbn; congruence. Qed.

(** X13.  [importFromCSV] ignores every line after a line that starts,
    once trimmed, with [Portfolio Summary], provided a line that is not
    blank comes before it: the file gives the same result, assets or error,
    with the lines after it removed. *)
Theorem lines_after_the_summary_are_ignored
    (before : list string) (summary : string) (after : list string) :
  Forall (fun line => has_char NEWLINE line = false)
    (before ++ summary :: after) ->
  Exists (fun line => nonempty (trim line) = true) before ->
  prefix "Portfolio Summary" (trim summary) = true ->
  importFromCSV String_toUpperCase Number_parseFloat
    (join NEWLINE (before ++ summary :: after))
  = importFromCSV String_toUpperCase Number_parseFloat
      (join NEWLINE (before ++ [summary])).
Proof.
  intros Hnl Hheader Hstop. unfold importFromCSV.
  assert (Hnl' : Forall (fun line => has_char NEWLINE line = false)
                   (before ++ [summary])).
  { apply Forall_app in Hnl. destruct Hnl as [Hb Hs].
    apply Forall_app. split; [exact Hb |].
    constructor; [now inversion Hs | constructor]. }
  rewrite !split_join by (assumption || now destruct before).
  rewrite !filter_app. cbn [filter].
  rewrite (prefix_nonempty "Portfolio Summary" _ eq_refl Hstop).
  destruct (filter _ before) as [|header rows] eqn:Ef.
  { exfalso. apply Exists_exists in Hheader.
    destruct Hheader as [line [Hin Hline]].
    assert (Hin' : In line (filter (fun line => nonempty (trim line))
                              before))
      by (apply filter_In; now split).
    rewrite Ef in Hin'. destruct Hin'. }
  cbn [app tl].
  destruct rows as [|row rows]; cbn [app]; cbv zeta;
    (destruct (findIndex _ _) as [symbolIndex |]; [| reflexivity]).
  - rewrite (importRows_stops _ _ _ _ _ _ summary
               (filter (fun line => nonempty (trim line)) after) [] []
               Hstop).
    reflexivity.
  - rewrite (importRows_stops _ _ _ _ _ _ summary
               (filter (fun line => nonempty (trim line)) after) []
               (row :: rows) Hstop).
    reflexivity.
Qed.

End ImportFacts.

(** ** Export, then import *)

Lemma trimStart_length (s : string) :
  (String.length (trimStart s) <= String.length s)%nat.
Proof.
  induction s as [|c s IH]; cbn [trimStart]; [lia |].
  destruct (is_space c); cbn [String.length]; lia.
Qed.

Lemma trimEnd_length (s : string) :
  (String.length (trimEnd s) <= String.length s)%nat.
Proof.
  induction s as [|c s IH]; cbn [trimEnd]; [lia |].
  destruct (trimEnd s); [destruct (is_space c) |];
    cbn [String.length] in *; lia.
Qed.

(** A text that [trim] leaves alone does not start with white space. *)
Lemma trim_fixed_first (s : string) :
  nonempty s = true -> trim s = s ->
  exists c rest, s = String c rest /\ is_space c = false.
Proof.
  destruct s as [|c rest]; [discriminate |]. intros _ H.
  exists c, rest. split; [reflexivity |].
  destruct (is_space c) eqn:E; [| reflexivity]. exfalso.
  assert (Hlen : String.length (trim (String c rest))
                 = String.length (String c rest)) by now rewrite H.
  unfold trim in Hlen. cbn [trimStart] in Hlen. rewrite E in Hlen.
  pose proof (trimEnd_length (trimStart rest)).
  pose proof (trimStart_length rest).
  cbn [String.length] in Hlen. lia.
Qed.

Lemma trimEnd_last (a : string) (c : Ascii.ascii) :
  is_space c = false ->
  trimEnd (a ++ String c EmptyString) = (a ++ String c EmptyString)%string.
Proof.
  intro Hc. induction a as [|x a IH].
  - cbn. now rewrite Hc.
  - cbn [append trimEnd]. rewrite IH. now destruct a.
Qed.

Lemma trim_fixed (c : Ascii.ascii) (rest a : string) (d : Ascii.ascii) :
  is_space c = false -> is_space d = false ->
  String c rest = (a ++ String d EmptyString)%string ->
  trim (String c rest) = String c rest.
Proof.
  intros Hc Hd E. unfold trim. cbn [trimStart]. rewrite Hc, E.
  now apply trimEnd_last.
Qed.

Lemma nonempty_last (s : string) :
  nonempty s = true ->
  exists a c, s = (a ++ String c EmptyString)%string.
Proof.
  induction s as [|x s IH]; [discriminate |]. intros _.
  destruct s as [|y s].
  - now exists EmptyString, x.
  - destruct (IH eq_refl) as [a [c E]]. exists (String x a), c.
    cbn [append]. now rewrite <- E.
Qed.

Lemma nonempty_append_r (a b : string) :
  nonempty b = true -> nonempty (a ++ b) = true.
Proof. now destruct a, b. Qed.

Lemma decimal_nonempty (n : Z) : nonempty (decimal n) = true.
Proof.
  unfold decimal, DecimalString.NilZero.string_of_uint.
  now destruct (N.to_uint (Z.to_N n)).
Qed.

Lemma fixed_notation_nonempty (n : Z) (f : nat) :
  nonempty (fixed_notation n f) = true.
Proof.
  unfold fixed_notation. destruct (f =? 0)%nat.
  - apply decimal_nonempty.
  - cbv zeta. apply nonempty_append_r. reflexivity.
Qed.

Lemma toFixed_nonempty (Number_toString : float -> string) (x : float)
    (f : nat) :
  printable x = true -> nonempty (toFixed Number_toString x f) = true.
Proof.
  unfold toFixed, printable. intro Hp.
  destruct (Prim2SF x) as [s | s | | s m e] eqn:E.
  - apply fixed_notation_nonempty.
  - now destruct s.
  - reflexivity.
  - rewrite (finite_not_infinity _ _ _ _ E), (finite_not_nan _ _ _ _ E)
      in Hp.
    rewrite !orb_false_r in Hp. rewrite Hp.
    apply nonempty_append_r, fixed_notation_nonempty.
Qed.

Lemma alphabet_no_space (c : Ascii.ascii) :
  has_char c figure_alphabet = true -> is_space c = false.
Proof.
  unfold figure_alphabet. cbn [has_char]. intro H.
  repeat (apply orb_true_iff in H; destruct H as [H | H];
          [apply Ascii.eqb_eq in H; subst c; reflexivity |]).
  discriminate.
Qed.

(** The text of a printable number ends with a character that is not white
    space. *)
Lemma toFixed_last (Number_toString : float -> string) (x : float)
    (f : nat) :
  printable x = true ->
  exists a c,
    toFixed Number_toString x f = (a ++ String c EmptyString)%string
    /\ is_space c = false.
Proof.
  intro Hp.
  destruct (nonempty_last _ (toFixed_nonempty Number_toString x f Hp))
    as [a [c E]].
  exists a, c. split; [exact E |].
  apply alphabet_no_space.
  apply (toFixed_in_alphabet Number_toString x f c Hp).
  rewrite E, has_char_append. cbn [has_char].
  now rewrite Ascii.eqb_refl, orb_true_r.
Qed.

Lemma has_char_join (c sep : Ascii.ascii) (pieces : list string) :
  Ascii.eqb sep c = false ->
  Forall (fun p => has_char c p = false) pieces ->
  has_char c (join sep pieces) = false.
Proof.
  intros Hsep H. induction H as [|p pieces Hp Hrest IH]; [reflexivity |].
  destruct pieces as [|q pieces]; [exact Hp |].
  rewrite join_cons_cons by discriminate.
  rewrite has_char_append, Hp. cbn [has_char orb]. now rewrite Hsep, IH.
Qed.

Lemma join_last (sep : Ascii.ascii) (pieces : list string) (last : string) :
  exists before : string,
    join sep (pieces ++ [last]) = (before ++ last)%string.
Proof.
  induction pieces as [|p pieces [before IH]].
  - now exists EmptyString.
  - exists (p ++ String sep before)%string. cbn [app].
    rewrite join_cons_cons by now destruct pieces.
    now rewrite IH, append_assoc.
Qed.

Lemma prefix_before_separator (sep : Ascii.ascii) (p : string) :
  has_char sep p = false ->
  forall s rest : string,
    prefix p s = false -> prefix p (s ++ String sep rest) = false.
Proof.
  induction p as [|x p IH]; intros Hp s rest H;
    [destruct s; discriminate |].
  cbn [has_char] in Hp. apply orb_false_iff in Hp. destruct Hp as [Hx Hp].
  destruct s as [|y s]; cbn [append prefix] in *.
  - destruct (Ascii.ascii_dec x sep) as [-> |]; [| reflexivity].
    now rewrite Ascii.eqb_refl in Hx.
  - destruct (Ascii.ascii_dec x y); [| reflexivity]. now apply IH.
Qed.

Lemma remove_quotes_none (s : string) :
  has_char QUOTE s = false -> remove_quotes s = s.
Proof.
  induction s as [|c s IH]; [reflexivity |]. cbn [has_char remove_quotes].
  intro H. apply orb_false_iff in H. destruct H as [Hc Hs].
  now rewrite Hc, IH.
Qed.

Lemma truthy_not_nan (x : float) : truthy x = true -> is_nan x = false.
Proof.
  unfold truthy. intro H. apply negb_true_iff, orb_false_iff in H. tauto.
Qed.

Section RoundTrip.

Variable Number_toString : float -> string.
Variable String_toUpperCase : string -> string.
Variable Number_parseFloat : string -> float.
Variable weights : option (list float).

Let row := assetRow Number_toString weights.
Let loop := importRows String_toUpperCase Number_parseFloat.
Let again :=
  reimported Number_toString String_toUpperCase Number_parseFloat.

Lemma assetLine_shape (asset : Asset) (index : nat) :
  exportable weights asset index ->
  exists c rest a d,
    join COMMA (row asset index) = String c rest
    /\ join COMMA (row asset index) = (a ++ String d EmptyString)%string
    /\ is_space c = false /\ is_space d = false.
Proof.
  intros [[Hne [Htrim _]] [_ [_ [_ Hp]]]].
  destruct (trim_fixed_first _ Hne Htrim) as [c [rest [Es Hc]]].
  unfold assetFigures in Hp. cbn [forallb] in Hp.
  repeat (apply andb_true_iff in Hp; destruct Hp as [? Hp]).
  destruct (toFixed_last Number_toString
              (exportedWeight weights index * price asset) 2)
    as [a [d [Ea Hd]]]; [assumption |].
  destruct (join_last COMMA
              (firstn 6 (row asset index))
              (toFixed Number_toString
                 (exportedWeight weights index * price asset) 2))
    as [before Eb].
  exists c,
    (rest ++ String COMMA (join COMMA (tl (row asset index))))%string,
    (before ++ a)%string, d.
  repeat split; try assumption.
  - subst row. unfold assetRow. rewrite join_cons_cons by discriminate.
    now rewrite Es.
  - rewrite append_assoc, <- Ea, <- Eb. reflexivity.
Qed.

Lemma assetLine_trim (asset : Asset) (index : nat) :
  exportable weights asset index ->
  trim (join COMMA (row asset index)) = join COMMA (row asset index)
  /\ nonempty (join COMMA (row asset index)) = true.
Proof.
  intro H. destruct (assetLine_shape asset index H)
    as [c [rest [a [d [E [E' [Hc Hd]]]]]]].
  rewrite E. split; [| reflexivity]. apply (trim_fixed c rest a d); auto.
  now rewrite <- E.
Qed.

Lemma assetLine_not_summary (asset : Asset) (index : nat) :
  exportable weights asset index ->
  prefix "Portfolio Summary" (join COMMA (row asset index)) = false.
Proof.
  intros [_ [Hcomma [Hprefix _]]].
  subst row. unfold assetRow. rewrite join_cons_cons by discriminate.
  now apply prefix_before_separator.
Qed.

Lemma assetLine_values (asset : Asset) (index : nat) :
  exportable weights asset index ->
  parseCSVLine (join COMMA (row asset index))
  = map snd (assetCells Number_toString weights asset index).
Proof.
  intros [[_ [_ [Hq _]]] [Hcomma [_ [[_ [_ [Hnq _]]] Hp]]]].
  subst row. rewrite assetRow_cells. unfold assetCells, parseCSVLine.
  rewrite parse_row; [reflexivity |].
  now apply assetCells_readable.
Qed.

Lemma assetLine_no_newline (asset : Asset) (index : nat) :
  exportable weights asset index ->
  has_char NEWLINE (join COMMA (row asset index)) = false.
Proof.
  intros [[_ [_ [_ Hs]]] [_ [_ [[_ [_ [_ Hn]]] Hp]]]].
  unfold assetFigures in Hp. cbn [forallb] in Hp.
  repeat (apply andb_true_iff in Hp; destruct Hp as [? Hp]).
  apply has_char_join; [reflexivity |].
  subst row. unfold assetRow. fold (exportedWeight weights index).
  repeat apply Forall_cons; try apply Forall_nil;
    try (apply toFixed_no_separator; [assumption | reflexivity]);
    try assumption.
  unfold in_quotes. cbn [has_char]. rewrite has_char_append, Hn.
  reflexivity.
Qed.

(** One exported row, read by the loop of [importFromCSV]. *)
Lemma importRows_assetLine (headers : list string) (asset : Asset)
    (index : nat) (rest : list string) (assets : list Asset) :
  length headers = 7%nat ->
  exportable weights asset index ->
  loop headers 0 (Some 1%nat) (Some 2%nat) (Some 3%nat) (Some 4%nat)
    (join COMMA (row asset index) :: rest) assets
  = loop headers 0 (Some 1%nat) (Some 2%nat) (Some 3%nat)
      (Some 4%nat) rest (assets ++ [again asset]).
Proof.
  intros Hlen H.
  destruct (assetLine_trim asset index H) as [Htrim Hne].
  pose proof (assetLine_not_summary asset index H) as Hsum.
  pose proof (assetLine_values asset index H) as Hvalues.
  destruct H as [[Hsne [Hstrim _]] [_ [_ [[Hnne [Hntrim [Hnq _]]] _]]]].
  subst loop. cbn [importRows]. cbv zeta.
  rewrite Htrim, Hne, Hsum, Hvalues, Hlen.
  unfold assetCells. cbn [map snd length Nat.ltb Nat.leb negb orb nth_error].
  rewrite Hstrim, Hsne. cbn [negb].
  rewrite (remove_quotes_none _ Hnq), Hntrim, Hnne.
  unfold parsedOr. cbn [nth_error expectedReturn volatility price].
  rewrite !truthy_not_nan by (now apply or_default_truthy).
  reflexivity.
Qed.

Lemma importRows_assetLines (headers : list string) (rest : list string)
    (exported : list Asset) :
  length headers = 7%nat ->
  forall (start : nat) (assets : list Asset),
    (forall index asset,
        nth_error exported index = Some asset ->
        exportable weights asset (start + index)) ->
    loop headers 0 (Some 1%nat) (Some 2%nat) (Some 3%nat)
      (Some 4%nat)
      (map (join COMMA) (mapi_from row start exported) ++ rest) assets
    = loop headers 0 (Some 1%nat) (Some 2%nat) (Some 3%nat)
        (Some 4%nat) rest (assets ++ map again exported).
Proof.
  intro Hlen. induction exported as [|asset exported IH];
    intros start assets H.
  - cbn. now rewrite app_nil_r.
  - cbn [mapi_from map app].
    rewrite importRows_assetLine.
    + rewrite IH.
      * now rewrite <- app_assoc.
      * intros index a Ha. replace (S start + index)%nat
          with (start + S index)%nat by lia. now apply H.
    + exact Hlen.
    + specialize (H 0%nat asset eq_refl).
      now rewrite Nat.add_0_r in H.
Qed.

Lemma assetLines_no_newline (exported : list Asset) :
  forall start : nat,
    (forall index asset,
        nth_error exported index = Some asset ->
        exportable weights asset (start + index)) ->
    Forall (fun line => has_char NEWLINE line = false)
      (map (join COMMA) (mapi_from row start exported)).
Proof.
  induction exported as [|asset exported IH]; intros start H;
    cbn [mapi_from map]; constructor.
  - apply assetLine_no_newline. specialize (H 0%nat asset eq_refl).
    now rewrite Nat.add_0_r in H.
  - apply IH. intros index a Ha.
    replace (S start + index)%nat with (start + S index)%nat by lia.
    now apply H.
Qed.

Lemma assetLines_not_blank (exported : list Asset) :
  forall start : nat,
    (forall index asset,
        nth_error exported index = Some asset ->
        exportable weights asset (start + index)) ->
    filter (fun line => nonempty (trim line))
      (map (join COMMA) (mapi_from row start exported))
    = map (join COMMA) (mapi_from row start exported).
Proof.
  induction exported as [|asset exported IH]; intros start H;
    cbn [mapi_from map filter]; [reflexivity |].
  assert (Hasset : exportable weights asset start).
  { specialize (H 0%nat asset eq_refl). now rewrite Nat.add_0_r in H. }
  destruct (assetLine_trim asset start Hasset) as [-> ->].
  f_equal. apply IH. intros index a Ha.
  replace (S start + index)%nat with (start + S index)%nat by lia.
  now apply H.
Qed.

Lemma summaryRows_no_newline (res : OptimizationResult) :
  forallb printable (summaryFigures (Some res)) = true ->
  Forall (fun line => has_char NEWLINE line = false)
    (map (join COMMA) (summaryRows Number_toString res)).
Proof.
  intro Hp. cbn [summaryFigures forallb] in Hp.
  repeat (apply andb_true_iff in Hp; destruct Hp as [? Hp]).
  unfold summaryRows. cbv zeta. cbn [map].
  repeat apply Forall_cons; try apply Forall_nil; try reflexivity;
    (apply has_char_join; [reflexivity |]);
    repeat apply Forall_cons; try apply Forall_nil; try reflexivity;
    try (apply toFixed_no_separator; [assumption | reflexivity]).
  destruct (has_char NEWLINE (decimal (Z.of_nat (iterations res)))) eqn:E;
    [| reflexivity].
  apply decimal_in_alphabet in E. discriminate.
Qed.

(** The lines of an export that [importFromCSV] keeps: the header, the rows
    of the assets, and with a result the summary. *)
Lemma exported_lines_kept (assets : list Asset)
    (optimizationResult : option OptimizationResult) :
  (forall index asset,
      nth_error assets index = Some asset ->
      exportable weights asset index) ->
  exists tail : list string,
    filter (fun line => nonempty (trim line))
      (exportToCSV_lines Number_toString assets weights optimizationResult)
    = join COMMA csvHeaders
      :: map (join COMMA) (mapi row assets) ++ tail
    /\ forall headers assets,
         loop headers 0 (Some 1%nat) (Some 2%nat) (Some 3%nat)
           (Some 4%nat) tail assets = assets.
Proof.
  intro H. unfold exportToCSV_lines, mapi. cbv zeta. cbn [filter].
  fold row.
  change (nonempty (trim (join COMMA csvHeaders))) with true. cbv iota.
  destruct optimizationResult as [res |].
  - rewrite map_app, filter_app.
    rewrite (assetLines_not_blank assets 0 H).
    unfold summaryRows. cbv zeta. rewrite map_cons.
    change (join COMMA []) with EmptyString. cbn [filter trim].
    change (nonempty (trimEnd (trimStart EmptyString))) with false.
    cbv iota. rewrite map_cons. cbn [filter].
    match goal with
    | |- context [if nonempty (trim ?line) then _ else _] =>
        change (nonempty (trim line)) with true
    end.
    cbv iota. eexists. split; [reflexivity |].
    intros headers acc. reflexivity.
  - rewrite (assetLines_not_blank assets 0 H).
    exists []. split; [now rewrite app_nil_r | reflexivity].
Qed.

End RoundTrip.

Lemma exported_columns :
  let headers :=
    map (fun h => toLowerCase (trim h))
      (split COMMA (join COMMA csvHeaders)) in
  length headers = 7%nat
  /\ findIndex (fun h => includes "symbol" h) headers = Some 0%nat
  /\ findIndex (fun h => includes "name" h) headers = Some 1%nat
  /\ findIndex (fun h => includes "return" h) headers = Some 2%nat
  /\ findIndex (fun h => includes "volatility" h || includes "risk" h)
       headers = Some 3%nat
  /\ findIndex (fun h => includes "price" h) headers = Some 4%nat.
Proof. vm_compute. repeat split. Qed.

(** X14.  What [exportToCSV] writes, [importFromCSV] reads again: for a
    portfolio that is not empty, whose symbols and names are not empty, have
    no white space around them and hold no double quote or line break, whose
    symbols hold no comma and do not start with [Portfolio Summary], and
    whose numbers are not finite or below [1e21] in magnitude, the import
    of the export succeeds with one asset per exported asset, in the same
    order: the symbol in upper case, the same name, and each number read by
    [Number.parseFloat] from the text [toFixed] wrote, or its default when
    that reads as zero or [NaN].  The weights and the summary are not read
    back. *)
Theorem exported_assets_are_imported_again
    (Number_toString : float -> string)
    (String_toUpperCase : string -> string)
    (Number_parseFloat : string -> float)
    (assets : list Asset) (weights : option (list float))
    (optimizationResult : option OptimizationResult) :
  assets <> [] ->
  (forall index asset,
      nth_error assets index = Some asset ->
      exportable weights asset index) ->
  forallb printable (summaryFigures optimizationResult) = true ->
  importFromCSV String_toUpperCase Number_parseFloat
    (exportToCSV Number_toString assets weights optimizationResult)
  = inr (map (reimported Number_toString String_toUpperCase
                Number_parseFloat) assets).
Proof.
  intros Hne H Hp. unfold exportToCSV, importFromCSV.
  rewrite split_join.
  - destruct (exported_lines_kept Number_toString String_toUpperCase
                Number_parseFloat weights assets optimizationResult H)
      as [tail [-> Htail]].
    destruct assets as [|first assets]; [congruence |].
    unfold mapi. cbn [mapi_from map app]. cbv beta iota zeta. cbn [tl].
    destruct exported_columns
      as [Hlen [Hsymbol [Hname [Hreturn [Hvolatility Hprice]]]]].
    rewrite Hsymbol, Hname, Hreturn, Hvolatility, Hprice.
    change (join COMMA (assetRow Number_toString weights first 0)
            :: map (join COMMA)
                 (mapi_from (assetRow Number_toString weights) 1 assets)
               ++ tail)
      with (map (join COMMA)
              (mapi_from (assetRow Number_toString weights) 0
                 (first :: assets)) ++ tail).
    rewrite importRows_assetLines, Htail by (assumption || exact H).
    reflexivity.
  - discriminate.
  - unfold exportToCSV_lines. cbv zeta. constructor; [reflexivity |].
    destruct optimizationResult as [res |].
    + rewrite map_app. apply Forall_app. split.
      * now apply (assetLines_no_newline Number_toString weights assets 0).
      * now apply summaryRows_no_newline.
    + now apply (assetLines_no_newline Number_toString weights assets 0).
Qed.

(** ** The weights saved with a result *)

Lemma get_set_same (obj : object) (key : string) (value : option float) :
  key <> "__proto__"%string ->
  get_property (set_property obj key value) key = Some value.
Proof.
  intro Hkey. unfold set_property, get_property.
  apply String.eqb_neq in Hkey. rewrite Hkey.
  induction obj as [|[k v] obj IH]; cbn [existsb map find app fst].
  - now rewrite String.eqb_refl.
  - destruct (String.eqb k key) eqn:E; cbn [orb].
    + cbn [find fst]. now rewrite String.eqb_refl.
    + destruct (existsb _ obj) eqn:Ex; cbn [find fst]; rewrite E;
        exact IH.
Qed.

Lemma get_set_other (obj : object) (key other : string)
    (value : option float) :
  other <> key ->
  get_property (set_property obj key value) other = get_property obj other.
Proof.
  intro Hne. unfold set_property, get_property.
  destruct (String.eqb key "__proto__"); [reflexivity |].
  assert (Hko : String.eqb key other = false)
    by (apply String.eqb_neq; congruence).
  induction obj as [|[k v] obj IH]; cbn [existsb map find app fst].
  - now rewrite Hko.
  - destruct (String.eqb k key) eqn:E; cbn [orb].
    + apply String.eqb_eq in E. subst k. cbn [find fst]. rewrite Hko.
      destruct (existsb _ obj) eqn:Ex.
      * exact IH.
      * clear IH Ex. induction obj as [|[k' v'] obj IH'];
          cbn [map find fst]; [reflexivity |].
        destruct (String.eqb k' key) eqn:E'; cbn [fst].
        -- apply String.eqb_eq in E'. subst k'. now rewrite Hko.
        -- now destruct (String.eqb k' other).
    + destruct (existsb _ obj) eqn:Ex; cbn [find fst];
        destruct (String.eqb k other); try reflexivity; exact IH.
Qed.

Lemma weightsObject_from_later (assets : list Asset)
    (optimalWeights : list float) (key : string) :
  Forall (fun asset => symbol asset <> key) assets ->
  forall (index : nat) (acc : object),
    get_property (weightsObject_from assets optimalWeights index acc) key
    = get_property acc key.
Proof.
  induction 1 as [|asset assets Hne _ IH]; intros index acc;
    cbn [weightsObject_from]; [reflexivity |].
  rewrite IH. apply get_set_other. congruence.
Qed.

Lemma weightsObject_from_last (assets : list Asset)
    (optimalWeights : list float) :
  forall (start index : nat) (asset : Asset) (acc : object),
    nth_error assets index = Some asset ->
    symbol asset <> "__proto__"%string ->
    Forall (fun later => symbol later <> symbol asset)
      (skipn (S index) assets) ->
    get_property (weightsObject_from assets optimalWeights start acc)
      (symbol asset)
    = Some (nth_error optimalWeights (start + index)).
Proof.
  induction assets as [|first assets IH];
    intros start index asset acc Hnth Hkey Hlast.
  - destruct index; discriminate.
  - destruct index as [|index]; cbn [weightsObject_from].
    + injection Hnth as <-. cbn [skipn] in Hlast.
      rewrite weightsObject_from_later by exact Hlast.
      rewrite Nat.add_0_r. now apply get_set_same.
    + rewrite (IH (S start) index asset) by assumption.
      do 2 f_equal. lia.
Qed.

(** X16.  The object of weights that [handleOptimize] saves with a result
    of [optimizePortfolio] holds, under the symbol of an asset that no later
    asset shares and that is not [__proto__], the optimal weight at the
    index of that asset. *)
Theorem saved_weight_is_that_of_the_last_asset_with_the_symbol
    (Math_exp : float -> float) (Math_pow : float -> float -> float)
    (this : QuantumPortfolioOptimizer) (fuel : nat) (assets : list Asset)
    (c : Constraints) (res : OptimizationResult)
    (index : nat) (asset : Asset) :
  optimizePortfolio Math_exp Math_pow this fuel assets c = Some (inr res) ->
  nth_error assets index = Some asset ->
  symbol asset <> "__proto__"%string ->
  Forall (fun later => symbol later <> symbol asset)
    (skipn (S index) assets) ->
  exists weight : float,
    nth_error (optimalWeights res) index = Some weight
    /\ get_property (weightsObject assets (optimalWeights res))
         (symbol asset) = Some (Some weight).
Proof.
  intros Hres Hnth Hkey Hlast.
  destruct (optimizePortfolio_returns _ _ _ _ _ _ _ Hres) as (m & Hw & _).
  assert (Hlen : length (optimalWeights res) = length assets)
    by (rewrite Hw; apply weightsAtPass_length).
  destruct (nth_error (optimalWeights res) index) as [weight |] eqn:E.
  - exists weight. split; [reflexivity |]. unfold weightsObject.
    rewrite (weightsObject_from_last assets _ 0 index asset [])
      by assumption.
    cbn [Nat.add]. now rewrite E.
  - apply nth_error_None in E.
    assert (index < length assets)%nat
      by (apply nth_error_Some; congruence).
    lia.
Qed.

(** X17.  The object of weights that [handleOptimize] saves never has an
    own property [__proto__]: the weight of an asset with that symbol is
    not saved. *)
Theorem symbol_proto_is_never_saved (assets : list Asset)
    (optimalWeights : list float) :
  get_property (weightsObject assets optimalWeights) "__proto__" = None.
Proof.
  unfold weightsObject.
  assert (H : forall index acc,
             get_property acc "__proto__" = None ->
             get_property
               (weightsObject_from assets optimalWeights index acc)
               "__proto__" = None).
  { induction assets as [|asset assets IH]; intros index acc Hacc;
      cbn [weightsObject_from]; [exact Hacc |].
    apply IH.
    destruct (String.eqb_spec (symbol asset) "__proto__") as [E | E].
    - unfold set_property. now rewrite E.
    - rewrite get_set_other by congruence. exact Hacc. }
  now apply H.
Qed.

(** ** The exported trace *)

Lemma parse_keeps_result (line : string) :
  forall (before result : list string) (current : string)
         (inQuotes : bool),
    parseCSVLine_from line (before ++ result) current inQuotes
    = before ++ parseCSVLine_from line result current inQuotes.
Proof.
  induction line as [|c line IH]; intros before result current inQuotes;
    cbn [parseCSVLine_from].
  - now rewrite app_assoc.
  - destruct (Ascii.eqb c QUOTE); [apply IH |].
    destruct (Ascii.eqb c COMMA && negb inQuotes); [| apply IH].
    rewrite <- app_assoc. apply IH.
Qed.

Lemma parse_first_cell (cell rest : string) :
  has_char QUOTE cell = false -> has_char COMMA cell = false ->
  parseCSVLine (cell ++ String COMMA rest) = cell :: parseCSVLine rest.
Proof.
  intros Hq Hc. unfold parseCSVLine.
  rewrite parse_plain_text by auto.
  cbn [parseCSVLine_from append].
  change (Ascii.eqb COMMA QUOTE) with false.
  change (Ascii.eqb COMMA COMMA && negb false) with true. cbv iota.
  apply (parse_keeps_result rest [cell] []).
Qed.

Lemma decimal_no_separator (n : Z) (c : Ascii.ascii) :
  has_char c figure_alphabet = false -> has_char c (decimal n) = false.
Proof.
  intro Hc. destruct (has_char c (decimal n)) eqn:E; [| reflexivity].
  apply decimal_in_alphabet in E. congruence.
Qed.

(** X15.  For a result that [optimizePortfolio] returned,
    [exportOptimizationResultsToCSV] joins one line per iteration after the
    header line, and [parseCSVLine] reads the number of the iteration, counted
    from one, as the first cell of its line. *)
Theorem exported_trace_has_a_line_for_each_iteration
    (Number_toString : float -> string)
    (Math_exp : float -> float) (Math_pow : float -> float -> float)
    (this : QuantumPortfolioOptimizer) (fuel : nat) (assets : list Asset)
    (c : Constraints) (res : OptimizationResult) :
  optimizePortfolio Math_exp Math_pow this fuel assets c = Some (inr res) ->
  length (exportOptimizationResultsToCSV_lines Number_toString res)
  = S (iterations res)
  /\ forall k : nat,
       (k < iterations res)%nat ->
       exists (line : string) (cells : list string),
         nth_error (exportOptimizationResultsToCSV_lines Number_toString
                      res) (S k) = Some line
         /\ parseCSVLine line = decimal (Z.of_nat (k + 1)) :: cells.
Proof.
  intro Hres.
  destruct (optimizePortfolio_returns _ _ _ _ _ _ _ Hres)
    as (m & _ & _ & _ & _ & Hconv & Hit & _).
  assert (Hlen : length (convergenceData res) = iterations res)
    by (rewrite Hconv, length_map, length_seq; now rewrite Hit).
  unfold exportOptimizationResultsToCSV_lines. cbv zeta. split.
  - cbn [length]. rewrite length_map, (mapi_seq _ nan), length_map,
      length_seq. now rewrite Hlen.
  - intros k Hk. cbn [nth_error].
    destruct (nth_error (convergenceData res) k) as [sharpe |] eqn:E;
      [| apply nth_error_None in E; lia].
    eexists. eexists. split.
    + rewrite nth_error_map, (nth_error_mapi _ _ k sharpe E).
      reflexivity.
    + cbv beta. rewrite join_cons_cons by discriminate.
      apply parse_first_cell; apply decimal_no_separator; reflexivity.
Qed.

(** ** The further theorems on the sample data *)

Lemma optimalWeights_aligned_with_assets_witness :
  optimizePortfolio exp_ref pow_ref default_optimizer 101 [AAPL; GOOGL]
    no_constraints = Some (inr sample_result)
  /\ length (optimalWeights sample_result) = length [AAPL; GOOGL].
Proof.
  split; [exact sample_run |].
  exact (optimalWeights_aligned_with_assets exp_ref pow_ref
           default_optimizer 101 [AAPL; GOOGL] no_constraints sample_result
           sample_run).
Defined.

Lemma reported_metrics_are_metrics_of_optimalWeights_witness :
  optimizePortfolio exp_ref pow_ref default_optimizer 101 [AAPL; GOOGL]
    no_constraints = Some (inr sample_result)
  /\ calculatePortfolioMetrics pow_ref default_optimizer [AAPL; GOOGL]
       (optimalWeights sample_result)
     = inr {| pm_expectedReturn := or_expectedReturn sample_result;
              pm_volatility := or_volatility sample_result;
              pm_sharpeRatio := or_sharpeRatio sample_result |}.
Proof.
  split; [exact sample_run |].
  exact (reported_metrics_are_metrics_of_optimalWeights exp_ref pow_ref
           default_optimizer 101 [AAPL; GOOGL] no_constraints sample_result
           sample_run).
Defined.

Lemma early_stop_is_within_tolerance_witness :
  optimizePortfolio exp_ref pow_ref default_optimizer 101 [AAPL; GOOGL]
    no_constraints = Some (inr sample_result)
  /\ (iterationNumber (iterations sample_result)
      <? maxIterations default_optimizer) = true
  /\ exists last : float,
       nth_error (convergenceData sample_result)
         (iterations sample_result - 1) = Some last
       /\ (Math_abs (- or_sharpeRatio sample_result - - last)
           <? tolerance default_optimizer) = true.
Proof.
  assert (Hearly : (iterationNumber (iterations sample_result)
                    <? maxIterations default_optimizer) = true)
    by (vm_compute; reflexivity).
  split; [exact sample_run |]. split; [exact Hearly |].
  exact (early_stop_is_within_tolerance exp_ref pow_ref default_optimizer
           101 [AAPL; GOOGL] no_constraints sample_result sample_run
           Hearly).
Defined.

Lemma no_pass_returns_uniform_weights_witness :
  (0 <? maxIterations (constructor None (Some (-1)))) = false
  /\ exists res : OptimizationResult,
       optimizePortfolio exp_ref pow_ref (constructor None (Some (-1))) 1
         [AAPL; GOOGL] no_constraints = Some (inr res)
       /\ optimalWeights res = [0.5; 0.5]
       /\ convergenceData res = []
       /\ iterations res = 0%nat.
Proof.
  assert (Hmax : (0 <? maxIterations (constructor None (Some (-1))))
                 = false) by (vm_compute; reflexivity).
  split; [exact Hmax |].
  destruct (no_pass_returns_uniform_weights exp_ref pow_ref
              (constructor None (Some (-1))) 1 [AAPL; GOOGL] no_constraints
              Hmax) as [Hres Hrun].
  destruct (Hrun (le_n 2) (le_n 1)) as [res Hres'].
  exists res. split; [exact Hres' |]. exact (Hres res Hres').
Defined.

Lemma first_entry_is_sharpe_of_uniform_weights_witness :
  optimizePortfolio exp_ref pow_ref default_optimizer 101 [AAPL; GOOGL]
    no_constraints = Some (inr sample_result)
  /\ (0 <? maxIterations default_optimizer) = true
  /\ (1 <= iterations sample_result)%nat
  /\ exists metrics : PortfolioMetrics,
       calculatePortfolioMetrics pow_ref default_optimizer [AAPL; GOOGL]
         (repeat (1 / of_nat (length [AAPL; GOOGL]))
            (length [AAPL; GOOGL]))
       = inr metrics
       /\ nth_error (convergenceData sample_result) 0
          = Some (pm_sharpeRatio metrics).
Proof.
  assert (Hmax : (0 <? maxIterations default_optimizer) = true)
    by (vm_compute; reflexivity).
  split; [exact sample_run |]. split; [exact Hmax |].
  exact (first_entry_is_sharpe_of_uniform_weights exp_ref pow_ref
           default_optimizer 101 [AAPL; GOOGL] no_constraints sample_result
           sample_run Hmax).
Defined.

Lemma nan_input_gives_nan_result_witness :
  nth_error [AAPL; unknown_return] 1 = Some unknown_return
  /\ (expectedReturn unknown_return = nan
      \/ volatility unknown_return = nan)
  /\ (2 <= length [AAPL; unknown_return])%nat
  /\ passesAllowed default_optimizer 100 = true
  /\ exists res : OptimizationResult,
       optimizePortfolio exp_ref pow_ref default_optimizer 101
         [AAPL; unknown_return] no_constraints = Some (inr res)
       /\ optimalWeights res = repeat nan (length [AAPL; unknown_return])
       /\ iterations res = 100%nat
       /\ convergenceData res = repeat nan (iterations res)
       /\ or_sharpeRatio res = nan.
Proof.
  assert (Hlen : (2 <= length [AAPL; unknown_return])%nat)
    by (cbn; lia).
  assert (Hpasses : (1 <= 100)%nat) by lia.
  split; [reflexivity |]. split; [left; reflexivity |].
  split; [exact Hlen |]. split; [exact default_passes |].
  exact (nan_input_gives_nan_result exp_ref pow_ref default_optimizer
           100 101 [AAPL; unknown_return] no_constraints 1 unknown_return
           eq_refl (or_introl eq_refl) Hlen default_passes Hpasses
           (le_n 101)).
Defined.

Lemma metrics_ignore_assets_beyond_the_weights_witness :
  (length [1] <= length [AAPL; GOOGL])%nat
  /\ calculatePortfolioMetrics pow_ref default_optimizer [AAPL; GOOGL] [1]
     = calculatePortfolioMetrics pow_ref default_optimizer
         (firstn (length [1]) [AAPL; GOOGL]) [1].
Proof.
  assert (Hlen : (length [1] <= length [AAPL; GOOGL])%nat) by (cbn; lia).
  split; [exact Hlen |].
  exact (metrics_ignore_assets_beyond_the_weights pow_ref default_optimizer
           [AAPL; GOOGL] [1] Hlen).
Defined.

Lemma parseCSVLine_reads_written_row_witness :
  Forall readable_cell
    [(false, "AAPL"); (true, "Apple, Inc."); (false, "0.12")]%string
  /\ parseCSVLine
       (join COMMA
          (map write_cell
             [(false, "AAPL"); (true, "Apple, Inc.");
              (false, "0.12")]%string))
     = ["AAPL"; "Apple, Inc."; "0.12"]%string.
Proof.
  assert (Hcells : Forall readable_cell
                     [(false, "AAPL"); (true, "Apple, Inc.");
                      (false, "0.12")]%string).
  { repeat apply Forall_cons; try apply Forall_nil;
      (split; [reflexivity | intro; try discriminate; reflexivity]). }
  split; [exact Hcells |].
  exact (parseCSVLine_reads_written_row _ _ Hcells).
Defined.

Lemma exported_asset_row_is_read_back_witness :
  nth_error [AAPL; GOOGL] 1 = Some GOOGL
  /\ has_char COMMA (symbol GOOGL) = false
  /\ has_char QUOTE (symbol GOOGL) = false
  /\ has_char QUOTE (name GOOGL) = false
  /\ forallb printable
       (assetFigures (Some (optimalWeights sample_result)) GOOGL 1) = true
  /\ exists line : string,
       nth_error
         (exportToCSV_lines toString_unused [AAPL; GOOGL]
            (Some (optimalWeights sample_result)) (Some sample_result)) 2
       = Some line
       /\ parseCSVLine line
          = ["GOOGL"; "Alphabet Inc."; "0.1400"; "0.2800"; "2750.00";
             "0.5000"; "1375.06"]%string.
Proof.
  assert (Hp : forallb printable
                 (assetFigures (Some (optimalWeights sample_result))
                    GOOGL 1) = true) by (vm_compute; reflexivity).
  do 4 (split; [reflexivity |]). split; [exact Hp |].
  exact (exported_asset_row_is_read_back toString_unused [AAPL; GOOGL]
           (Some (optimalWeights sample_result)) (Some sample_result) 1
           GOOGL eq_refl eq_refl eq_refl eq_refl Hp).
Defined.

Lemma falsy_weights_export_like_no_weights_witness :
  Forall (fun w => truthy w = false) [nan; 0]
  /\ exportToCSV toString_unused [AAPL; GOOGL] (Some [nan; 0]) None
     = exportToCSV toString_unused [AAPL; GOOGL] None None.
Proof.
  assert (H : Forall (fun w => truthy w = false) [nan; 0])
    by (repeat constructor).
  split; [exact H |].
  exact (falsy_weights_export_like_no_weights toString_unused
           [AAPL; GOOGL] [nan; 0] None H).
Defined.

Lemma imported_numbers_are_never_zero_or_NaN_witness :
  exists assets : list Asset,
    importFromCSV upper_ref parseFloat_ref sample_csv = inr assets
    /\ map volatility assets = [0.2]
    /\ assets <> []
    /\ Forall (fun asset =>
                 truthy (expectedReturn asset) = true
                 /\ truthy (volatility asset) = true
                 /\ truthy (price asset) = true) assets.
Proof.
  eexists.
  assert (Hrun : importFromCSV upper_ref parseFloat_ref sample_csv = inr _)
    by (vm_compute; reflexivity).
  split; [exact Hrun |]. split; [reflexivity |].
  exact (imported_numbers_are_never_zero_or_NaN upper_ref parseFloat_ref
           sample_csv _ Hrun).
Defined.

Lemma lines_after_the_summary_are_ignored_witness :
  Forall (fun line => has_char NEWLINE line = false)
    (sample_lines ++ sample_summary :: ["msft,0.11,0.22,415.25"%string])
  /\ Exists (fun line => nonempty (trim line) = true) sample_lines
  /\ prefix "Portfolio Summary" (trim sample_summary) = true
  /\ importFromCSV upper_ref parseFloat_ref sample_csv
     = importFromCSV upper_ref parseFloat_ref
         (join NEWLINE (sample_lines ++ [sample_summary])).
Proof.
  assert (Hlines : Forall (fun line => has_char NEWLINE line = false)
                     (sample_lines
                      ++ sample_summary
                         :: ["msft,0.11,0.22,415.25"%string]))
    by (repeat constructor).
  assert (Hheader : Exists (fun line => nonempty (trim line) = true)
                      sample_lines) by (left; reflexivity).
  split; [exact Hlines |]. split; [exact Hheader |].
  split; [reflexivity |].
  exact (lines_after_the_summary_are_ignored upper_ref parseFloat_ref
           sample_lines sample_summary ["msft,0.11,0.22,415.25"%string]
           Hlines Hheader eq_refl).
Defined.

Lemma exported_assets_are_imported_again_witness :
  [AAPL; GOOGL] <> []
  /\ (forall index asset,
         nth_error [AAPL; GOOGL] index = Some asset ->
         exportable (Some (optimalWeights sample_result)) asset index)
  /\ forallb printable (summaryFigures (Some sample_result)) = true
  /\ importFromCSV upper_ref parseFloat_ref
       (exportToCSV toString_unused [AAPL; GOOGL]
          (Some (optimalWeights sample_result)) (Some sample_result))
     = inr [AAPL; GOOGL].
Proof.
  assert (Hne : [AAPL; GOOGL] <> []) by discriminate.
  assert (Hassets : forall index asset,
             nth_error [AAPL; GOOGL] index = Some asset ->
             exportable (Some (optimalWeights sample_result)) asset index).
  { intros [|[|index]] asset H;
      [injection H as <-; repeat split; vm_compute; reflexivity ..
      | destruct index; discriminate H]. }
  assert (Hp : forallb printable (summaryFigures (Some sample_result))
               = true) by (vm_compute; reflexivity).
  split; [exact Hne |]. split; [exact Hassets |]. split; [exact Hp |].
  exact (exported_assets_are_imported_again toString_unused upper_ref
           parseFloat_ref [AAPL; GOOGL]
           (Some (optimalWeights sample_result)) (Some sample_result)
           Hne Hassets Hp).
Defined.

Lemma saved_weight_is_that_of_the_last_asset_with_the_symbol_witness :
  optimizePortfolio exp_ref pow_ref default_optimizer 101 [AAPL; GOOGL]
    no_constraints = Some (inr sample_result)
  /\ nth_error [AAPL; GOOGL] 0 = Some AAPL
  /\ symbol AAPL <> "__proto__"%string
  /\ Forall (fun later => symbol later <> symbol AAPL)
       (skipn 1 [AAPL; GOOGL])
  /\ exists weight : float,
       nth_error (optimalWeights sample_result) 0 = Some weight
       /\ get_property (weightsObject [AAPL; GOOGL]
                          (optimalWeights sample_result)) (symbol AAPL)
          = Some (Some weight).
Proof.
  assert (Hkey : symbol AAPL <> "__proto__"%string) by discriminate.
  assert (Hlast : Forall (fun later => symbol later <> symbol AAPL)
                    (skipn 1 [AAPL; GOOGL]))
    by (repeat constructor; discriminate).
  split; [exact sample_run |]. split; [reflexivity |].
  split; [exact Hkey |]. split; [exact Hlast |].
  exact (saved_weight_is_that_of_the_last_asset_with_the_symbol exp_ref
           pow_ref default_optimizer 101 [AAPL; GOOGL] no_constraints
           sample_result 0 AAPL sample_run eq_refl Hkey Hlast).
Defined.

Lemma exported_trace_has_a_line_for_each_iteration_witness :
  optimizePortfolio exp_ref pow_ref default_optimizer 101 [AAPL; GOOGL]
    no_constraints = Some (inr sample_result)
  /\ length (exportOptimizationResultsToCSV_lines toString_unused
               sample_result) = S (iterations sample_result)
  /\ forall k : nat,
       (k < iterations sample_result)%nat ->
       exists (line : string) (cells : list string),
         nth_error (exportOptimizationResultsToCSV_lines toString_unused
                      sample_result) (S k) = Some line
         /\ parseCSVLine line = decimal (Z.of_nat (k + 1)) :: cells.
Proof.
  split; [exact sample_run |].
  exact (exported_trace_has_a_line_for_each_iteration toString_unused
           exp_ref pow_ref default_optimizer 101 [AAPL; GOOGL]
           no_constraints sample_result sample_run).
Defined.
